(** * AICC frontend: the live-call synchronisation core

    A shallow embedding of the call-state slice ([store/slices/callSlice]),
    the [useCall] hook, the [useWebSocket] hook and the message handler of
    [CallPage], followed by the properties of the synchronisation core.

    Conventions.  A TypeScript [string | null] or optional field is an
    [option]; a rejected promise is the left injection of a sum; the
    event loop is a step function over an explicit state. *)

From Stdlib Require Import ZArith.
From stdpp Require Import base tactics option list strings relations.

Open Scope string_scope.
Open Scope list_scope.

(** ** types/call.ts and types/transcript.ts *)

(** A JavaScript [number] that the core only stores and never computes
    with. *)
Definition number := Z.

Record Call := mkCall {
  c_id : string;
  c_phone_number : string;
  c_status : string;
  c_caller_id : option string;
  c_direction : string;
  c_twilio_call_sid : option string;
  c_started_at : option string;
  c_ended_at : option string;
  c_duration : option number;
  c_recording_url : option string;
  c_ai_persona : string;
  c_created_at : string;
  c_updated_at : string
}.

Record CallInitiateRequest := mkCallInitiateRequest {
  rq_phone_number : string;
  rq_caller_id : option string;
  rq_ai_persona : option string
}.

Record CallInitiateResponse := mkCallInitiateResponse {
  rs_call_id : string;
  rs_status : string;
  rs_phone_number : string;
  rs_created_at : string;
  rs_websocket_url : string
}.

Record CallListResponse := mkCallListResponse {
  items : list Call;
  total : number;
  page : number;
  page_size : number;
  pages : number
}.

Record Transcript := mkTranscript {
  t_id : string;
  t_call_id : string;
  t_speaker : string;
  t_text : string;
  t_timestamp : string;
  t_confidence : option number;
  t_created_at : string
}.

Record TranscriptListResponse := mkTranscriptListResponse {
  tl_call_id : string;
  tl_transcripts : list Transcript
}.

(** The error object Redux Toolkit attaches to a rejected thunk action;
    the slice reads its [message] only. *)
Record SerializedError := mkSerializedError {
  message : option string
}.

(** JavaScript's [a || b] on an optional string: [undefined] and the
    empty string are both falsy. *)
Definition or_default (a : option string) (b : string) : string :=
  match a with
  | Some s => if String.eqb s "" then b else s
  | None => b
  end.

(** ** store/slices/callSlice *)

Module CallSlice.

Record CallState := mkCallState {
  activeCall : option Call;
  callHistory : list Call;
  transcripts : list Transcript;
  loading : bool;
  error : option string;
  totalCalls : number;
  currentPage : number
}.

Definition initialState : CallState :=
  {| activeCall := None;
     callHistory := [];
     transcripts := [];
     loading := false;
     error := None;
     totalCalls := 0%Z;
     currentPage := 1%Z |}.

(** Every action the slice can see: the six plain reducers and the
    three lifecycle actions of each of the four thunks.  The thunks of
    [endCall] dispatch [pending] and [rejected] as well, although the
    slice registers a case for [fulfilled] only. *)
Inductive Action :=
| setActiveCall (payload : Call)
| updateCallStatus (callId : string) (status : string)
| addTranscript (payload : Transcript)
| clearActiveCall
| setError (payload : string)
| clearError
| initiateCall_pending
| initiateCall_fulfilled (call : Call) (websocketUrl : string)
| initiateCall_rejected (err : SerializedError)
| fetchCallHistory_pending
| fetchCallHistory_fulfilled (payload : CallListResponse)
| fetchCallHistory_rejected (err : SerializedError)
| fetchCallDetails_pending
| fetchCallDetails_fulfilled (call : Call) (transcripts : list Transcript)
| fetchCallDetails_rejected (err : SerializedError)
| endCall_pending
| endCall_fulfilled (callId : string)
| endCall_rejected (err : SerializedError).

(** [state.activeCall.status = s] on a draft. *)
Definition set_status (c : Call) (s : string) : Call :=
  {| c_id := c_id c;
     c_phone_number := c_phone_number c;
     c_status := s;
     c_caller_id := c_caller_id c;
     c_direction := c_direction c;
     c_twilio_call_sid := c_twilio_call_sid c;
     c_started_at := c_started_at c;
     c_ended_at := c_ended_at c;
     c_duration := c_duration c;
     c_recording_url := c_recording_url c;
     c_ai_persona := c_ai_persona c;
     c_created_at := c_created_at c;
     c_updated_at := c_updated_at c |}.

(** [state.activeCall?.id === callId]: with no active call the left
    side is [undefined], which is never [===] to a string. *)
Definition active_id_is (st : CallState) (callId : string) : bool :=
  match activeCall st with
  | Some c => String.eqb (c_id c) callId
  | None => false
  end.

Definition reducer (st : CallState) (a : Action) : CallState :=
  match a with
  | setActiveCall payload =>
      {| activeCall := Some payload;
         callHistory := callHistory st; transcripts := transcripts st;
         loading := loading st; error := error st;
         totalCalls := totalCalls st; currentPage := currentPage st |}
  | updateCallStatus callId status =>
      if active_id_is st callId then
        {| activeCall := (fun c => set_status c status) <$> activeCall st;
           callHistory := callHistory st; transcripts := transcripts st;
           loading := loading st; error := error st;
           totalCalls := totalCalls st; currentPage := currentPage st |}
      else st
  | addTranscript payload =>
      {| activeCall := activeCall st;
         callHistory := callHistory st;
         transcripts := transcripts st ++ [payload];
         loading := loading st; error := error st;
         totalCalls := totalCalls st; currentPage := currentPage st |}
  | clearActiveCall =>
      {| activeCall := None;
         callHistory := callHistory st;
         transcripts := [];
         loading := loading st; error := error st;
         totalCalls := totalCalls st; currentPage := currentPage st |}
  | setError payload =>
      {| activeCall := activeCall st;
         callHistory := callHistory st; transcripts := transcripts st;
         loading := loading st; error := Some payload;
         totalCalls := totalCalls st; currentPage := currentPage st |}
  | clearError =>
      {| activeCall := activeCall st;
         callHistory := callHistory st; transcripts := transcripts st;
         loading := loading st; error := None;
         totalCalls := totalCalls st; currentPage := currentPage st |}
  | initiateCall_pending =>
      {| activeCall := activeCall st;
         callHistory := callHistory st; transcripts := transcripts st;
         loading := true; error := None;
         totalCalls := totalCalls st; currentPage := currentPage st |}
  | initiateCall_fulfilled call _ =>
      {| activeCall := Some call;
         callHistory := callHistory st; transcripts := [];
         loading := false; error := error st;
         totalCalls := totalCalls st; currentPage := currentPage st |}
  | initiateCall_rejected err =>
      {| activeCall := activeCall st;
         callHistory := callHistory st; transcripts := transcripts st;
         loading := false;
         error := Some (or_default (message err) "Failed to initiate call");
         totalCalls := totalCalls st; currentPage := currentPage st |}
  | fetchCallHistory_pending =>
      {| activeCall := activeCall st;
         callHistory := callHistory st; transcripts := transcripts st;
         loading := true; error := error st;
         totalCalls := totalCalls st; currentPage := currentPage st |}
  | fetchCallHistory_fulfilled payload =>
      {| activeCall := activeCall st;
         callHistory := items payload; transcripts := transcripts st;
         loading := false; error := error st;
         totalCalls := total payload; currentPage := page payload |}
  | fetchCallHistory_rejected err =>
      {| activeCall := activeCall st;
         callHistory := callHistory st; transcripts := transcripts st;
         loading := false;
         error := Some (or_default (message err) "Failed to fetch call history");
         totalCalls := totalCalls st; currentPage := currentPage st |}
  | fetchCallDetails_pending =>
      {| activeCall := activeCall st;
         callHistory := callHistory st; transcripts := transcripts st;
         loading := true; error := error st;
         totalCalls := totalCalls st; currentPage := currentPage st |}
  | fetchCallDetails_fulfilled call ts =>
      {| activeCall := Some call;
         callHistory := callHistory st; transcripts := ts;
         loading := false; error := error st;
         totalCalls := totalCalls st; currentPage := currentPage st |}
  | fetchCallDetails_rejected err =>
      {| activeCall := activeCall st;
         callHistory := callHistory st; transcripts := transcripts st;
         loading := false;
         error := Some (or_default (message err) "Failed to fetch call details");
         totalCalls := totalCalls st; currentPage := currentPage st |}
  | endCall_pending => st
  | endCall_fulfilled _ =>
      match activeCall st with
      | Some c =>
          {| activeCall := Some (set_status c "completed");
             callHistory := callHistory st; transcripts := transcripts st;
             loading := loading st; error := error st;
             totalCalls := totalCalls st; currentPage := currentPage st |}
      | None => st
      end
  | endCall_rejected _ => st
  end.

(** The store after a list of actions, dispatched in order. *)
Definition dispatch_all (st : CallState) (acts : list Action) : CallState :=
  foldl reducer st acts.

End CallSlice.

(** ** services/api/callService *)

Module CallService.

(** The HTTP requests the service issues. *)
Inductive Request :=
| POST_initiate (data : CallInitiateRequest)
| GET_call (callId : string)
| GET_calls (page page_size : option number)
| DELETE_call (callId : string)
| GET_transcripts (callId : string).

(** The REST backend is an external collaborator: an oracle that
    answers each request, possibly depending on the requests it has
    already served.  A left injection is a rejected promise. *)
Record Backend := mkBackend {
  on_initiate : list Request -> CallInitiateRequest ->
                SerializedError + CallInitiateResponse;
  on_getCall : list Request -> string -> SerializedError + Call;
  on_getCalls : list Request -> option number -> option number ->
                SerializedError + CallListResponse;
  on_endCall : list Request -> string -> SerializedError + unit;
  on_getTranscripts : list Request -> string ->
                      SerializedError + TranscriptListResponse
}.

(** An [async] computation against the backend: it threads the log of
    requests served so far and either rejects or resolves. *)
Definition Rest (A : Type) : Type :=
  Backend -> list Request -> (SerializedError + A) * list Request.

Definition resolve {A} (a : A) : Rest A := fun _ log => (inr a, log).

Definition await {A B} (m : Rest A) (k : A -> Rest B) : Rest B :=
  fun b log =>
    match m b log with
    | (inr a, log') => k a b log'
    | (inl e, log') => (inl e, log')
    end.

Definition request {A} (r : Request)
    (answer : Backend -> list Request -> SerializedError + A) : Rest A :=
  fun b log => (answer b log, log ++ [r]).

Definition initiateCall (data : CallInitiateRequest) : Rest CallInitiateResponse :=
  request (POST_initiate data) (fun b log => on_initiate b log data).

Definition getCall (callId : string) : Rest Call :=
  request (GET_call callId) (fun b log => on_getCall b log callId).

Definition getCalls (page page_size : option number) : Rest CallListResponse :=
  request (GET_calls page page_size)
          (fun b log => on_getCalls b log page page_size).

Definition endCall (callId : string) : Rest unit :=
  request (DELETE_call callId) (fun b log => on_endCall b log callId).

Definition getTranscripts (callId : string) : Rest TranscriptListResponse :=
  request (GET_transcripts callId) (fun b log => on_getTranscripts b log callId).

End CallService.

Notation "x ←await m ; k" := (CallService.await m (fun x => k))
  (at level 100, m at next level, right associativity,
   format "x  ←await  m ;  '/' k").

(** ** The async thunks of the slice and their dispatch *)

Module Thunks.
Import CallSlice CallService.

Definition initiateCall (data : CallInitiateRequest) : Rest (Call * string) :=
  response ←await CallService.initiateCall data;
  call ←await CallService.getCall (rs_call_id response);
  resolve (call, rs_websocket_url response).

Definition fetchCallHistory (page page_size : option number) : Rest CallListResponse :=
  response ←await CallService.getCalls page page_size;
  resolve response.

Definition fetchCallDetails (callId : string) : Rest (Call * list Transcript) :=
  call ←await CallService.getCall callId;
  transcripts ←await CallService.getTranscripts callId;
  resolve (call, tl_transcripts transcripts).

Definition endCall (callId : string) : Rest string :=
  _ ←await CallService.endCall callId;
  resolve callId.

(** The application as the thunks see it: the store and the backend's
    request log. *)
Record World := mkWorld {
  store : CallState;
  served : list Request
}.

(** [dispatch(thunk(arg))] of [createAsyncThunk]: [pending] is
    dispatched at once, the payload creator runs, and [fulfilled] or
    [rejected] is dispatched with its outcome.  The dispatch itself
    never rejects: it resolves with the final action, whose [payload]
    is [undefined] for a rejection.  No other action is interleaved
    here; what an interleaved action sees is stated on [reducer]. *)
Definition dispatch_thunk {A}
    (pending : Action) (fulfilled : A -> Action)
    (rejected : SerializedError -> Action)
    (body : Rest A) (b : Backend) (w : World) : World * option A :=
  let st1 := reducer (store w) pending in
  match body b (served w) with
  | (inr a, log) =>
      ({| store := reducer st1 (fulfilled a); served := log |}, Some a)
  | (inl e, log) =>
      ({| store := reducer st1 (rejected e); served := log |}, None)
  end.

Definition dispatch_initiateCall (data : CallInitiateRequest) :=
  dispatch_thunk initiateCall_pending
                 (fun p => initiateCall_fulfilled (fst p) (snd p))
                 initiateCall_rejected
                 (initiateCall data).

Definition dispatch_fetchCallHistory (page page_size : option number) :=
  dispatch_thunk fetchCallHistory_pending
                 fetchCallHistory_fulfilled
                 fetchCallHistory_rejected
                 (fetchCallHistory page page_size).

Definition dispatch_fetchCallDetails (callId : string) :=
  dispatch_thunk fetchCallDetails_pending
                 (fun p => fetchCallDetails_fulfilled (fst p) (snd p))
                 fetchCallDetails_rejected
                 (fetchCallDetails callId).

Definition dispatch_endCall (callId : string) :=
  dispatch_thunk endCall_pending endCall_fulfilled endCall_rejected
                 (endCall callId).

End Thunks.

(** ** hooks/useCall *)

Module UseCall.
Import CallSlice CallService Thunks.

Definition startCall (data : CallInitiateRequest) (b : Backend) (w : World)
    : World * option (Call * string) :=
  dispatch_initiateCall data b w.

Definition stopCall (callId : string) (b : Backend) (w : World) : World :=
  fst (dispatch_endCall callId b w).

(** [page = 1] and [pageSize = 20] are the defaults of the hook. *)
Definition loadCallHistory (page pageSize : option number)
    (b : Backend) (w : World) : World :=
  fst (dispatch_fetchCallHistory (Some (default 1%Z page))
                                 (Some (default 20%Z pageSize)) b w).

Definition loadCallDetails (callId : string) (b : Backend) (w : World) : World :=
  fst (dispatch_fetchCallDetails callId b w).

Definition on_store (f : CallState -> CallState) (w : World) : World :=
  {| store := f (store w); served := served w |}.

Definition handleNewTranscript (transcript : Transcript) : World -> World :=
  on_store (fun st => reducer st (addTranscript transcript)).

Definition handleStatusUpdate (callId status : string) : World -> World :=
  on_store (fun st => reducer st (updateCallStatus callId status)).

Definition clearCall : World -> World :=
  on_store (fun st => reducer st clearActiveCall).

End UseCall.

(** ** hooks/useWebSocket *)

Module UseWebSocket.

Inductive ReadyState := CONNECTING | OPEN | CLOSING | CLOSED.

(** What the hook writes to a socket. *)
Inductive Frame :=
| subscribe (call_id : string)
| user_message (body : string).

Record WebSocket := mkWebSocket {
  url : string;
  readyState : ReadyState;
  sent : list Frame
}.

(** The two refs of the hook together with the part of the browser it
    talks to: every socket constructed so far (a socket is named by
    its position, so [length sockets] counts the [new WebSocket]
    calls) and the timeouts that are scheduled and not yet fired or
    cleared.  [setTimeout] hands out fresh positive ids. *)
Record Hook := mkHook {
  wsRef : option nat;
  reconnectTimeoutRef : option nat;
  sockets : list WebSocket;
  timeouts : list nat;
  nextTimeout : nat
}.

Definition initial : Hook :=
  {| wsRef := None; reconnectTimeoutRef := None;
     sockets := []; timeouts := []; nextTimeout := 1 |}.

(** What happens on the event loop: the effect of the hook runs or is
    cleaned up, a socket reports [open], [message], [error] or
    [close], a timeout fires, or the caller sends a message. *)
Inductive Event :=
| Mount
| Cleanup
| SocketOpen (ws : nat)
| SocketMessage (ws : nat) (data : string)
| SocketError (ws : nat)
| SocketClose (ws : nat)
| TimeoutFired (t : nat)
| SendMessage (body : string).

Section Hook.
Variable WS_BASE_URL : string.
Variable callId : option string.

(** [if (!callId) return]: [null] and the empty string are falsy. *)
Definition connect (h : Hook) : Hook :=
  match callId with
  | None => h
  | Some cid =>
      if String.eqb cid "" then h
      else
        let ws := {| url := WS_BASE_URL +:+ "/ws/call/" +:+ cid;
                     readyState := CONNECTING;
                     sent := [] |} in
        {| wsRef := Some (length (sockets h));
           reconnectTimeoutRef := reconnectTimeoutRef h;
           sockets := sockets h ++ [ws];
           timeouts := timeouts h;
           nextTimeout := nextTimeout h |}
  end.

Definition send (f : Frame) (ws : WebSocket) : WebSocket :=
  {| url := url ws; readyState := readyState ws; sent := sent ws ++ [f] |}.

Definition set_readyState (r : ReadyState) (ws : WebSocket) : WebSocket :=
  {| url := url ws; readyState := r; sent := sent ws |}.

Definition on_sockets (f : list WebSocket -> list WebSocket) (h : Hook) : Hook :=
  {| wsRef := wsRef h; reconnectTimeoutRef := reconnectTimeoutRef h;
     sockets := f (sockets h);
     timeouts := timeouts h; nextTimeout := nextTimeout h |}.

(** [ws.onopen]: sends the subscription on the socket that opened
    ([callId] is truthy whenever a socket exists). *)
Definition ws_onopen (i : nat) (h : Hook) : Hook :=
  on_sockets (alter (send (subscribe (default "" callId))) i) h.

(** [ws.onclose]: schedules [connect] in 3000 ms and remembers the
    timeout, whatever made the socket close. *)
Definition ws_onclose (h : Hook) : Hook :=
  let t := nextTimeout h in
  {| wsRef := wsRef h;
     reconnectTimeoutRef := Some t;
     sockets := sockets h;
     timeouts := timeouts h ++ [t];
     nextTimeout := S t |}.

(** Takes a timeout off the schedule: [clearTimeout], and also what
    the browser does with a timeout when it fires. *)
Definition clearTimeout (t : nat) (h : Hook) : Hook :=
  {| wsRef := wsRef h; reconnectTimeoutRef := reconnectTimeoutRef h;
     sockets := sockets h;
     timeouts := filter (fun t' => t' ≠ t) (timeouts h);
     nextTimeout := nextTimeout h |}.

(** [WebSocket.close()]: a socket that is connecting or open starts
    closing; its [close] event is delivered later.  On a closing or
    closed socket the call does nothing. *)
Definition WebSocket_close (ws : WebSocket) : WebSocket :=
  match readyState ws with
  | CONNECTING | OPEN => set_readyState CLOSING ws
  | CLOSING | CLOSED => ws
  end.

Definition disconnect (h : Hook) : Hook :=
  let h1 :=
    match reconnectTimeoutRef h with
    | Some (S _ as t) => clearTimeout t h
    | _ => h
    end in
  match wsRef h1 with
  | Some i =>
      {| wsRef := None;
         reconnectTimeoutRef := reconnectTimeoutRef h1;
         sockets := alter WebSocket_close i (sockets h1);
         timeouts := timeouts h1;
         nextTimeout := nextTimeout h1 |}
  | None => h1
  end.

Definition sendMessage (body : string) (h : Hook) : Hook :=
  match wsRef h with
  | Some i =>
      match sockets h !! i with
      | Some ws =>
          match readyState ws with
          | OPEN => on_sockets (alter (send (user_message body)) i) h
          | _ => h
          end
      | None => h
      end
  | None => h
  end.

(** One turn of the event loop.  [None] means the browser cannot
    deliver that event in that state: [open] comes once, to a
    connecting socket; [message] to an open one; [close] once, to a
    socket that is not closed yet; a timeout fires only while it is
    scheduled. *)
Definition step (h : Hook) (e : Event) : option Hook :=
  match e with
  | Mount =>
      Some (match callId with
            | Some cid => if String.eqb cid "" then h else connect h
            | None => h
            end)
  | Cleanup => Some (disconnect h)
  | SocketOpen i =>
      ws ← sockets h !! i;
      match readyState ws with
      | CONNECTING =>
          Some (ws_onopen i (on_sockets (alter (set_readyState OPEN) i) h))
      | _ => None
      end
  | SocketMessage i _ =>
      ws ← sockets h !! i;
      match readyState ws with
      | OPEN => Some h
      | _ => None
      end
  | SocketError i =>
      ws ← sockets h !! i;
      match readyState ws with
      | CLOSED => None
      | _ => Some h
      end
  | SocketClose i =>
      ws ← sockets h !! i;
      match readyState ws with
      | CLOSED => None
      | _ =>
          Some (ws_onclose (on_sockets (alter (set_readyState CLOSED) i) h))
      end
  | TimeoutFired t =>
      if bool_decide (t ∈ timeouts h)
      then Some (connect (clearTimeout t h))
      else None
  | SendMessage body => Some (sendMessage body h)
  end.

Fixpoint run (h : Hook) (es : list Event) : option Hook :=
  match es with
  | [] => Some h
  | e :: es' => h' ← step h e; run h' es'
  end.

(** How many connections have been opened. *)
Definition opened (h : Hook) : nat := length (sockets h).

End Hook.

End UseWebSocket.

(** ** pages/CallPage: the message handler behind [ws.onmessage] *)

Module CallPage.

Set Warnings "-register-all".

(** What [JSON.parse] can return.  A number is kept as its literal;
    an object keeps its members in the order of the text. *)
Inductive json :=
| JNull
| JBool (b : bool)
| JNumber (literal : string)
| JString (s : string)
| JArray (elements : list json)
| JObject (members : list (string * json)).

Inductive Exception := SyntaxError | TypeError.

(** A JavaScript computation that may throw. *)
Definition Js (A : Type) : Type := Exception + A.

Definition bind {A B} (m : Js A) (k : A -> Js B) : Js B :=
  match m with
  | inr a => k a
  | inl e => inl e
  end.

(** [try { body } catch (error) { handler(error) }]. *)
Definition try_catch {A} (body : Js A) (handler : Exception -> Js A) : Js A :=
  match body with
  | inr a => inr a
  | inl e => handler e
  end.

(** The member of an object for a key; when the text repeats a key,
    [JSON.parse] keeps the last value. *)
Fixpoint member (key : string) (members : list (string * json)) : option json :=
  match members with
  | [] => None
  | (k, v) :: rest =>
      match member key rest with
      | Some v' => Some v'
      | None => if String.eqb k key then Some v else None
      end
  end.

(** [message.key] for the keys the handler reads ([type], [speaker],
    [text], [timestamp], [status]), none of which a prototype
    defines: reading a property of [null] throws, an object answers
    with its member or [undefined], every other value with
    [undefined]. *)
Definition get (message : json) (key : string) : Js (option json) :=
  match message with
  | JNull => inl TypeError
  | JObject members => inr (member key members)
  | _ => inr None
  end.

(** [v === 'literal']. *)
Definition is_string (v : option json) (literal : string) : bool :=
  match v with
  | Some (JString s) => String.eqb s literal
  | _ => false
  end.

(** The call into [useCall] that a message leads to.  The wire is
    untyped, so the fields are whatever the message holds. *)
Inductive HandlerCall :=
| handleNewTranscript
    (id call_id : string) (speaker text timestamp created_at : option json)
| handleStatusUpdate (callId : string) (status : option json).

(** What became of one inbound frame. *)
Inductive Outcome :=
| Handled (c : HandlerCall)
| Ignored
| Logged (e : Exception).

Definition normalized (o : Outcome) : option HandlerCall :=
  match o with
  | Handled c => Some c
  | Ignored | Logged _ => None
  end.

Section Handler.
(** [JSON.parse] is native: [None] is a thrown [SyntaxError]. *)
Variable JSON_parse : string -> option json.
(** The call the page shows, and the value [crypto.randomUUID()]
    returns for this message. *)
Variable callId : string.
Variable randomUUID : string.

(** [options.onMessage] as [CallPage] passes it. *)
Definition onMessage (message : json) : Js Outcome :=
  bind (get message "type") (fun type =>
  if is_string type "transcript" then
    bind (get message "speaker") (fun speaker =>
    bind (get message "text") (fun text =>
    bind (get message "timestamp") (fun timestamp =>
    inr (Handled (handleNewTranscript randomUUID callId
                    speaker text timestamp timestamp)))))
  else if is_string type "status_update" then
    bind (get message "status") (fun status =>
    inr (Handled (handleStatusUpdate callId status)))
  else inr Ignored).

(** [ws.onmessage]: parse and hand over inside [try]; the [catch]
    logs. *)
Definition ws_onmessage (data : string) : Js Outcome :=
  try_catch
    (bind (match JSON_parse data with
           | Some message => inr message
           | None => inl SyntaxError
           end) onMessage)
    (fun error => inr (Logged error)).

End Handler.

End CallPage.

(** ** The transition graph of the specification *)

Module Graph.

(** [type CallStatus] of types/call.ts. *)
Inductive CallStatus := initiating | ringing | in_progress | completed | failed.

(** The status a string of the store denotes, if any: the slice
    stores whatever string an event carries. *)
Definition parse_status (s : string) : option CallStatus :=
  if String.eqb s "initiating" then Some initiating
  else if String.eqb s "ringing" then Some ringing
  else if String.eqb s "in_progress" then Some in_progress
  else if String.eqb s "completed" then Some completed
  else if String.eqb s "failed" then Some failed
  else None.

(** The forward transitions as the specification draws them:
    initiating -> ringing -> in_progress -> completed, and each of
    initiating, ringing, in_progress -> failed; completed and failed
    have no successor. *)
Definition spec_edge (a b : CallStatus) : bool :=
  match a, b with
  | initiating, ringing
  | ringing, in_progress
  | in_progress, completed
  | (initiating | ringing | in_progress), failed => true
  | _, _ => false
  end.

(** Zero or more forward transitions. *)
Definition spec_reaches (a b : CallStatus) : bool :=
  match a, b with
  | initiating, _ => true
  | ringing, (ringing | in_progress | completed | failed) => true
  | in_progress, (in_progress | completed | failed) => true
  | completed, completed => true
  | failed, failed => true
  | _, _ => false
  end.

(** [spec_forward s s']: the stored status [s'] is [s] or lies ahead
    of it in the graph. *)
Definition spec_forward (s s' : string) : bool :=
  String.eqb s s'
  || match parse_status s, parse_status s' with
     | Some a, Some b => spec_reaches a b
     | _, _ => false
     end.

End Graph.

(** ** Status histories *)

Module History.
Import CallSlice Graph.

Definition status_of (st : CallState) : option string :=
  c_status <$> activeCall st.

(** The actions that install a whole [Call] record from the backend. *)
Definition is_snapshot (a : Action) : bool :=
  match a with
  | setActiveCall _
  | initiateCall_fulfilled _ _
  | fetchCallDetails_fulfilled _ _ => true
  | _ => false
  end.

(** An action respects the graph in a state when the status it is
    about to write lies ahead of the current one: a status event for
    the tracked call, or the end of the call. *)
Definition in_order (st : CallState) (a : Action) : bool :=
  match a, activeCall st with
  | updateCallStatus callId s, Some c =>
      if String.eqb (c_id c) callId then spec_forward (c_status c) s else true
  | endCall_fulfilled _, Some c => spec_forward (c_status c) "completed"
  | _, _ => true
  end.

(** A run without snapshots in which every action is in order. *)
Fixpoint ordered_run (st : CallState) (acts : list Action) : bool :=
  match acts with
  | [] => true
  | a :: rest =>
      negb (is_snapshot a) && in_order st a && ordered_run (reducer st a) rest
  end.

End History.

(** ** Sample data *)

Module Samples.
Import CallSlice CallService.

Definition a_call (id status : string) : Call :=
  {| c_id := id;
     c_phone_number := "+821012345678";
     c_status := status;
     c_caller_id := None;
     c_direction := "outbound";
     c_twilio_call_sid := None;
     c_started_at := None;
     c_ended_at := None;
     c_duration := None;
     c_recording_url := None;
     c_ai_persona := "default";
     c_created_at := "2024-01-01T00:00:00Z";
     c_updated_at := "2024-01-01T00:00:00Z" |}.

Definition a_transcript (id speaker text : string) : Transcript :=
  {| t_id := id;
     t_call_id := "A";
     t_speaker := speaker;
     t_text := text;
     t_timestamp := "2024-01-01T00:00:01Z";
     t_confidence := None;
     t_created_at := "2024-01-01T00:00:01Z" |}.

(** A store that tracks call [id] in [status], one line heard. *)
Definition tracking (id status : string) : CallState :=
  {| activeCall := Some (a_call id status);
     callHistory := [];
     transcripts := [a_transcript "t1" "user" "hello"];
     loading := false;
     error := None;
     totalCalls := 0%Z;
     currentPage := 1%Z |}.

Definition network_error : SerializedError :=
  {| message := Some "Network Error" |}.

(** A backend that is up: it creates call [A] and serves it. *)
Definition backend_up : Backend :=
  {| on_initiate := fun _ data =>
       inr {| rs_call_id := "A"; rs_status := "initiating";
              rs_phone_number := rq_phone_number data;
              rs_created_at := "2024-01-01T00:00:00Z";
              rs_websocket_url := "/ws/call/A" |};
     on_getCall := fun _ callId => inr (a_call callId "initiating");
     on_getCalls := fun _ _ _ =>
       inr {| items := []; total := 0%Z; page := 1%Z;
              page_size := 20%Z; pages := 0%Z |};
     on_endCall := fun _ _ => inr tt;
     on_getTranscripts := fun _ callId =>
       inr {| tl_call_id := callId; tl_transcripts := [] |} |}.

(** A backend that cannot be reached. *)
Definition backend_down : Backend :=
  {| on_initiate := fun _ _ => inl network_error;
     on_getCall := fun _ _ => inl network_error;
     on_getCalls := fun _ _ _ => inl network_error;
     on_endCall := fun _ _ => inl network_error;
     on_getTranscripts := fun _ _ => inl network_error |}.

(** A backend that accepts the initiation and then fails the detail
    fetch. *)
Definition backend_half : Backend :=
  {| on_initiate := on_initiate backend_up;
     on_getCall := fun _ _ => inl network_error;
     on_getCalls := on_getCalls backend_up;
     on_endCall := on_endCall backend_up;
     on_getTranscripts := on_getTranscripts backend_up |}.

Definition a_request : CallInitiateRequest :=
  {| rq_phone_number := "+821012345678";
     rq_caller_id := None;
     rq_ai_persona := None |}.

(** Frames as they arrive on the wire. *)
Definition quoted (s : string) : string :=
  let q := String (Ascii.ascii_of_nat 34) "" in q +:+ s +:+ q.

Definition status_frame : string :=
  "{" +:+ quoted "type" +:+ ":" +:+ quoted "status_update" +:+ ","
      +:+ quoted "status" +:+ ":" +:+ quoted "ringing" +:+ "}".

Definition transcript_frame : string :=
  "{" +:+ quoted "type" +:+ ":" +:+ quoted "transcript" +:+ ","
      +:+ quoted "speaker" +:+ ":" +:+ quoted "user" +:+ ","
      +:+ quoted "text" +:+ ":" +:+ quoted "hello" +:+ ","
      +:+ quoted "timestamp" +:+ ":" +:+ quoted "T1" +:+ "}".

Definition ping_frame : string :=
  "{" +:+ quoted "type" +:+ ":" +:+ quoted "ping" +:+ "}".

Definition untyped_frame : string :=
  "{" +:+ quoted "status" +:+ ":" +:+ quoted "ringing" +:+ "}".

(** What [JSON.parse] returns on the frames above and on a few
    literals; every other text here stands for one that does not
    parse. *)
Definition parse_sample (data : string) : option CallPage.json :=
  let same := String.eqb data in
  if same status_frame then
    Some (CallPage.JObject
            [("type", CallPage.JString "status_update");
             ("status", CallPage.JString "ringing")])
  else if same transcript_frame then
    Some (CallPage.JObject
            [("type", CallPage.JString "transcript");
             ("speaker", CallPage.JString "user");
             ("text", CallPage.JString "hello");
             ("timestamp", CallPage.JString "T1")])
  else if same ping_frame then
    Some (CallPage.JObject [("type", CallPage.JString "ping")])
  else if same untyped_frame then
    Some (CallPage.JObject [("status", CallPage.JString "ringing")])
  else if same "null" then Some CallPage.JNull
  else if same "[]" then Some (CallPage.JArray [])
  else if same "42" then Some (CallPage.JNumber "42")
  else None.

End Samples.

(** ** What a run of actions holds *)

Module Runs.
Import CallSlice.

(** The entries the [addTranscript] actions of a run carry, in order. *)
Definition appended (acts : list Action) : list Transcript :=
  omap (fun a => match a with addTranscript t => Some t | _ => None end) acts.

(** The status the last [updateCallStatus] for call [id] carries. *)
Fixpoint last_status (id : string) (acts : list Action) : option string :=
  match acts with
  | [] => None
  | a :: rest =>
      match last_status id rest with
      | Some s => Some s
      | None =>
          match a with
          | updateCallStatus callId s =>
              if String.eqb id callId then Some s else None
          | _ => None
          end
      end
  end.

(** The actions that assign the transcript log as a whole. *)
Definition replaces_log (a : Action) : bool :=
  match a with
  | initiateCall_fulfilled _ _
  | fetchCallDetails_fulfilled _ _
  | clearActiveCall => true
  | _ => false
  end.

(** The one action that assigns the history page. *)
Definition writes_history (a : Action) : bool :=
  match a with
  | fetchCallHistory_fulfilled _ => true
  | _ => false
  end.

(** The two kinds of event the push stream delivers. *)
Definition is_stream_event (a : Action) : bool :=
  match a with
  | updateCallStatus _ _ | addTranscript _ => true
  | _ => false
  end.

(** The actions that only ever touch a tracked call. *)
Definition needs_tracked_call (a : Action) : bool :=
  match a with
  | updateCallStatus _ _
  | endCall_pending | endCall_fulfilled _ | endCall_rejected _ => true
  | _ => false
  end.

End Runs.

(** ** pages/HomePage *)

Module HomePage.
Import CallSlice CallService Thunks UseCall.

(** [handleInitiateCall]: starts the call for the number and, when a
    call came back, navigates to its page.  The route is returned;
    [None] is no navigation.  [startCall] never throws, so the [catch]
    of the handler is not reached. *)
Definition handleInitiateCall (phoneNumber : string) (b : Backend) (w : World)
    : World * option string :=
  let (w', result) :=
    startCall {| rq_phone_number := phoneNumber;
                 rq_caller_id := None;
                 rq_ai_persona := None |} b w in
  match result with
  | Some (call, _) => (w', Some ("/call/" +:+ c_id call))
  | None => (w', None)
  end.

End HomePage.

(** ** components/CallInitiation/PhoneInput *)

Module PhoneInput.

(** The text of the input field, as its UTF-16 code units. *)
Definition jsstring := list N.

(** An ASCII literal as code units. *)
Definition literal (s : string) : jsstring :=
  (fun a => Ascii.N_of_ascii a) <$> String.list_ascii_of_string s.

(** The regular expressions the component needs: one code unit, a
    range of code units, a sequence, and a bounded repetition. *)
Inductive regex :=
| Char (c : N)
| Range (lo hi : N)
| Seq (r1 r2 : regex)
| Repeat (min max : nat) (r : regex).

(** [repeat_from f min max s]: what can be left of [s] after between
    [min] and [max] rounds of [f]. *)
Fixpoint repeat_from (f : jsstring -> list jsstring) (min max : nat)
    (s : jsstring) : list jsstring :=
  match max with
  | 0 => match min with 0 => [s] | S _ => [] end
  | S max' =>
      match min with 0 => [s] | S _ => [] end
      ++ (f s ≫= repeat_from f (pred min) max')
  end.

(** Every way [r] can match a prefix of [s], as what is left of [s]. *)
Fixpoint residuals (r : regex) (s : jsstring) : list jsstring :=
  match r with
  | Char c =>
      match s with
      | x :: rest => if N.eqb x c then [rest] else []
      | [] => []
      end
  | Range lo hi =>
      match s with
      | x :: rest => if N.leb lo x && N.leb x hi then [rest] else []
      | [] => []
      end
  | Seq r1 r2 => residuals r1 s ≫= residuals r2
  | Repeat min max r' => repeat_from (residuals r') min max s
  end.

(** A decimal digit, [\d]. *)
Definition is_digit (c : N) : Prop := (48 ≤ c ≤ 57)%N.

(** [/^r$/.test(s)]: some match of [r] uses up the whole of [s]. *)
Definition test (r : regex) (s : jsstring) : bool :=
  existsb (fun rest => match rest with [] => true | _ :: _ => false end)
          (residuals r s).

(** [/^\+[1-9]\d{1,14}$/]: [+] is 43, the digits are 48 to 57. *)
Definition e164Regex : regex :=
  Seq (Char 43) (Seq (Range 49 57) (Repeat 1 14 (Range 48 57))).

Definition validatePhoneNumber (number : jsstring) : bool :=
  test e164Regex number.

(** The code units [trim] strips: the white space and the line
    terminators of the language. *)
Definition is_space (c : N) : bool :=
  (N.leb 9 c && N.leb c 13) || N.eqb c 32 || N.eqb c 160 || N.eqb c 5760
  || (N.leb 8192 c && N.leb c 8202) || N.eqb c 8232 || N.eqb c 8233
  || N.eqb c 8239 || N.eqb c 8287 || N.eqb c 12288 || N.eqb c 65279.

Fixpoint drop_spaces (s : jsstring) : jsstring :=
  match s with
  | c :: rest => if is_space c then drop_spaces rest else s
  | [] => []
  end.

Definition trim (s : jsstring) : jsstring :=
  reverse (drop_spaces (reverse (drop_spaces s))).

(** [!s] on a string. *)
Definition is_empty (s : jsstring) : bool :=
  match s with [] => true | _ :: _ => false end.

Record State := mkState {
  phoneNumber : jsstring;
  error : string
}.

(** [handleSubmit]: the state after it, and the number handed to
    [onSubmit] if it was called. *)
Definition handleSubmit (st : State) : State * option jsstring :=
  if is_empty (trim (phoneNumber st)) then
    ({| phoneNumber := phoneNumber st;
        error := "전화번호를 입력해주세요" |}, None)
  else if negb (validatePhoneNumber (phoneNumber st)) then
    ({| phoneNumber := phoneNumber st;
        error := "E.164 형식으로 입력해주세요 (예: +821012345678)" |}, None)
  else
    ({| phoneNumber := phoneNumber st; error := "" |}, Some (phoneNumber st)).

(** The [disabled] of the submit button. *)
Definition submit_disabled (loading : bool) (st : State) : bool :=
  loading || is_empty (trim (phoneNumber st)).

End PhoneInput.

(** ** Traces of the transport *)

Module Traces.
Import UseWebSocket.

(** [if (callId)]. *)
Definition truthy (callId : option string) : bool :=
  match callId with
  | Some cid => negb (String.eqb cid "")
  | None => false
  end.

(** The events that run [connect]. *)
Definition connects (e : Event) : bool :=
  match e with
  | Mount | TimeoutFired _ => true
  | _ => false
  end.

(** The events that run [ws.onclose]. *)
Definition closes (e : Event) : bool :=
  match e with
  | SocketClose _ => true
  | _ => false
  end.

Definition count (p : Event -> bool) (es : list Event) : nat :=
  length (filter (fun e => p e = true) es).

(** The timeouts are in order: scheduled ids are distinct, positive and
    already handed out, and so is the remembered one. *)
Definition timers_ok (h : Hook) : Prop :=
  NoDup (timeouts h)
  ∧ (∀ t, t ∈ timeouts h → 0 < t < nextTimeout h)
  ∧ (∀ t, reconnectTimeoutRef h = Some t → 0 < t < nextTimeout h)
  ∧ 0 < nextTimeout h.

(** What a socket of the hook for call [cid] has written: nothing
    before it opened, and from then on the subscription followed by
    the caller's messages. *)
Definition frames_ok (cid : string) (ws : WebSocket) : Prop :=
  match readyState ws with
  | CONNECTING => sent ws = []
  | OPEN => ∃ bodies, sent ws = subscribe cid :: (user_message <$> bodies)
  | CLOSING | CLOSED =>
      sent ws = []
      ∨ ∃ bodies, sent ws = subscribe cid :: (user_message <$> bodies)
  end.

(** The current socket of the handle, when it has one, is the socket
    constructed last. *)
Definition current_is_newest (h : Hook) : Prop :=
  match wsRef h with
  | Some i => S i = length (sockets h)
  | None => True
  end.

End Traces.

(** * Properties of the store *)

Section Store.
Import CallSlice Graph History Samples.

Lemma eqb_string_true (a b : string) : String.eqb a b = true ↔ a = b.
Proof. apply String.eqb_eq. Qed.

Lemma eqb_string_false (a b : string) : String.eqb a b = false ↔ a ≠ b.
Proof. apply String.eqb_neq. Qed.

Lemma active_id_is_true st callId :
  active_id_is st callId = true ↔ c_id <$> activeCall st = Some callId.
Proof.
  unfold active_id_is. destruct (activeCall st) as [c|]; simpl.
  - rewrite eqb_string_true. split; congruence.
  - split; discriminate.
Qed.

(** C4. [updateCallStatus] with a call id other than the tracked
    call's leaves the whole store as it was, for every status; with
    the tracked call's id it rewrites the status field of the active
    call and nothing else: the other fields of the call, the
    transcript log and the rest of the store are the old ones. *)
Theorem updateCallStatus_guard (st : CallState) (callId s : string) :
  (c_id <$> activeCall st ≠ Some callId →
     reducer st (updateCallStatus callId s) = st)
  ∧ (∀ c, activeCall st = Some c → c_id c = callId →
       reducer st (updateCallStatus callId s) =
       {| activeCall :=
            Some {| c_id := c_id c;
                    c_phone_number := c_phone_number c;
                    c_status := s;
                    c_caller_id := c_caller_id c;
                    c_direction := c_direction c;
                    c_twilio_call_sid := c_twilio_call_sid c;
                    c_started_at := c_started_at c;
                    c_ended_at := c_ended_at c;
                    c_duration := c_duration c;
                    c_recording_url := c_recording_url c;
                    c_ai_persona := c_ai_persona c;
                    c_created_at := c_created_at c;
                    c_updated_at := c_updated_at c |};
          callHistory := callHistory st;
          transcripts := transcripts st;
          loading := loading st;
          error := error st;
          totalCalls := totalCalls st;
          currentPage := currentPage st |}).
Proof.
  split.
  - intros Hne. simpl.
    destruct (active_id_is st callId) eqn:Hid; [|reflexivity].
    apply active_id_is_true in Hid. contradiction.
  - intros c Hc Hid. simpl.
    assert (active_id_is st callId = true) as ->.
    { apply active_id_is_true. rewrite Hc. simpl. congruence. }
    rewrite Hc. reflexivity.
Qed.

Lemma updateCallStatus_guard_witness :
  reducer (tracking "A" "initiating") (updateCallStatus "B" "ringing")
    = tracking "A" "initiating"
  ∧ reducer (tracking "A" "initiating") (updateCallStatus "A" "ringing")
    = tracking "A" "ringing".
Proof.
  split.
  - apply (updateCallStatus_guard (tracking "A" "initiating") "B" "ringing").
    simpl. discriminate.
  - apply (proj2 (updateCallStatus_guard (tracking "A" "initiating") "A" "ringing")
                 (a_call "A" "initiating")); reflexivity.
Defined.

Lemma transcripts_after_appends (st : CallState) (es : list Transcript) :
  transcripts (dispatch_all st (addTranscript <$> es)) = transcripts st ++ es.
Proof.
  revert st. induction es as [|e es IH]; intros st; simpl.
  - by rewrite app_nil_r.
  - unfold dispatch_all in IH. rewrite IH. simpl. by rewrite <- app_assoc.
Qed.

Lemma activeCall_after_appends (st : CallState) (es : list Transcript) :
  activeCall (dispatch_all st (addTranscript <$> es)) = activeCall st.
Proof.
  revert st. induction es as [|e es IH]; intros st; simpl; [done|].
  unfold dispatch_all in IH. by rewrite IH.
Qed.

(** C5. After a snapshot [(call, ts)] has been applied, any finite
    sequence of [addTranscript] leaves the log equal to [ts] followed
    by the appended entries in the order of the appends.  Nothing is
    dropped, so an entry appended twice is in the log twice: the log
    grows by exactly one entry per append. *)
Theorem snapshot_then_appends (st : CallState) (call : Call)
    (ts es : list Transcript) :
  let st' := dispatch_all (reducer st (fetchCallDetails_fulfilled call ts))
                          (addTranscript <$> es) in
  transcripts st' = ts ++ es
  ∧ length (transcripts st') = length ts + length es
  ∧ activeCall st' = Some call.
Proof.
  simpl. rewrite transcripts_after_appends, activeCall_after_appends. simpl.
  by rewrite length_app.
Qed.

(** C6. Applying the same snapshot twice in succession gives the
    store that applying it once gives. *)
Theorem snapshot_idempotent (st : CallState) (call : Call) (ts : list Transcript) :
  reducer (reducer st (fetchCallDetails_fulfilled call ts))
          (fetchCallDetails_fulfilled call ts)
  = reducer st (fetchCallDetails_fulfilled call ts).
Proof. reflexivity. Qed.

End Store.

Section Snapshots.
Import CallSlice Samples.

(** C2, as claimed, fails.  The store tracks call [B]; the response
    of a detail fetch for call [A] resolves; the reducer applies it,
    and the store now tracks [A] with [A]'s (empty) log. *)
Lemma stale_snapshot_is_applied :
  activeCall (tracking "B" "in_progress") = Some (a_call "B" "in_progress")
  ∧ c_id (a_call "A" "completed") ≠ c_id (a_call "B" "in_progress")
  ∧ reducer (tracking "B" "in_progress")
            (fetchCallDetails_fulfilled (a_call "A" "completed") [])
    ≠ tracking "B" "in_progress"
  ∧ activeCall (reducer (tracking "B" "in_progress")
                        (fetchCallDetails_fulfilled (a_call "A" "completed") []))
    = Some (a_call "A" "completed")
  ∧ transcripts (reducer (tracking "B" "in_progress")
                         (fetchCallDetails_fulfilled (a_call "A" "completed") []))
    = [].
Proof. repeat split; try reflexivity; discriminate. Qed.

(** C2, amended.  A resolved fetch is applied whatever call the store
    tracks when it resolves: in every state, [fetchCallDetails.fulfilled]
    makes the returned call the active call, the returned list the
    transcript log and clears [loading]; [initiateCall.fulfilled] does
    the same with an empty log.  Neither compares the returned call's
    id with the tracked one; history, pagination and the advisory
    error are left alone.  In particular the response wins over
    whatever was dispatched between the fetch's [pending] and its
    [fulfilled]. *)
Theorem snapshot_applied_unconditionally (st : CallState) (call : Call)
    (ts : list Transcript) (websocketUrl : string) :
  reducer st (fetchCallDetails_fulfilled call ts) =
    {| activeCall := Some call;
       callHistory := callHistory st;
       transcripts := ts;
       loading := false;
       error := error st;
       totalCalls := totalCalls st;
       currentPage := currentPage st |}
  ∧ reducer st (initiateCall_fulfilled call websocketUrl) =
    {| activeCall := Some call;
       callHistory := callHistory st;
       transcripts := [];
       loading := false;
       error := error st;
       totalCalls := totalCalls st;
       currentPage := currentPage st |}
  ∧ (∀ mid : list Action,
       let resolved :=
         reducer (dispatch_all (reducer st fetchCallDetails_pending) mid)
                 (fetchCallDetails_fulfilled call ts) in
       activeCall resolved = Some call ∧ transcripts resolved = ts).
Proof. repeat split. Qed.

End Snapshots.

Section Transitions.
Import CallSlice Graph History Samples.

Lemma spec_edge_reaches a b : spec_edge a b = true → spec_reaches a b = true.
Proof. by destruct a, b. Qed.

Lemma spec_reaches_refl a : spec_reaches a a = true.
Proof. by destruct a. Qed.

Lemma spec_reaches_trans a b c :
  spec_reaches a b = true → spec_reaches b c = true → spec_reaches a c = true.
Proof. by destruct a, b, c. Qed.

Local Ltac walk :=
  first
    [ apply rtc_refl
    | apply (rtc_l _ _ ringing); [reflexivity | walk]
    | apply (rtc_l _ _ in_progress); [reflexivity | walk]
    | apply (rtc_l _ _ completed); [reflexivity | walk]
    | apply (rtc_l _ _ failed); [reflexivity | walk] ].

(** [spec_reaches] is the reflexive-transitive closure of the edges. *)
Lemma spec_reaches_closure a b :
  spec_reaches a b = true ↔ rtc (λ x y, spec_edge x y = true) a b.
Proof.
  split.
  - destruct a, b; simpl; intros H; try discriminate H; walk.
  - induction 1 as [x | x y z Hxy _ IH].
    + apply spec_reaches_refl.
    + eapply spec_reaches_trans; [apply spec_edge_reaches, Hxy | apply IH].
Qed.

Lemma spec_forward_refl s : spec_forward s s = true.
Proof. unfold spec_forward. by rewrite String.eqb_refl. Qed.

Lemma spec_forward_trans s1 s2 s3 :
  spec_forward s1 s2 = true → spec_forward s2 s3 = true →
  spec_forward s1 s3 = true.
Proof.
  unfold spec_forward. intros H12 H23.
  destruct (String.eqb_spec s1 s2) as [->|_]; [exact H23|].
  destruct (String.eqb_spec s2 s3) as [->|_].
  { simpl in H12. rewrite H12. apply orb_true_r. }
  simpl in H12, H23.
  destruct (parse_status s1) as [a|]; [|discriminate].
  destruct (parse_status s2) as [b|]; [|discriminate].
  destruct (parse_status s3) as [c|]; [|discriminate].
  rewrite (spec_reaches_trans a b c H12 H23). apply orb_true_r.
Qed.

Lemma no_call_without_snapshot st a :
  is_snapshot a = false → activeCall st = None →
  activeCall (reducer st a) = None.
Proof.
  intros Hsnap Hnone. destruct a; simpl in *; try discriminate; try done.
  - unfold active_id_is. by rewrite Hnone.
  - by rewrite Hnone.
Qed.

Lemma status_step st a s :
  is_snapshot a = false → in_order st a = true →
  status_of st = Some s →
  status_of (reducer st a) = None
  ∨ ∃ s', status_of (reducer st a) = Some s' ∧ spec_forward s s' = true.
Proof.
  unfold status_of, in_order. intros Hsnap Hord Hs.
  destruct (activeCall st) as [c|] eqn:Hc; [|discriminate].
  simpl in Hs. injection Hs as <-.
  destruct a; simpl in *; try discriminate;
    rewrite ?Hc; simpl;
    try (right; eexists; split; [reflexivity | apply spec_forward_refl]);
    try (by left).
  - unfold active_id_is. rewrite Hc.
    destruct (String.eqb (c_id c) callId); simpl.
    + right. eauto.
    + rewrite Hc. simpl. right. eauto using spec_forward_refl.
  - right. eauto.
Qed.

(** C3, as claimed, fails: the store writes the status an event
    carries without looking at the current one.  A status event for
    the tracked call takes a completed call back to initiating, and
    ending the call takes a failed call to completed; neither is a
    snapshot. *)
Lemma status_can_regress :
  (is_snapshot (updateCallStatus "A" "initiating") = false
   ∧ status_of (tracking "A" "completed") = Some "completed"
   ∧ status_of (reducer (tracking "A" "completed")
                        (updateCallStatus "A" "initiating"))
     = Some "initiating"
   ∧ spec_forward "completed" "initiating" = false)
  ∧ (is_snapshot (endCall_fulfilled "A") = false
     ∧ status_of (tracking "A" "failed") = Some "failed"
     ∧ status_of (reducer (tracking "A" "failed") (endCall_fulfilled "A"))
       = Some "completed"
     ∧ spec_forward "failed" "completed" = false).
Proof. repeat split. Qed.

(** C3, amended.  The store does not check transitions; it relies on
    the order of what it is given.  For every sequence of store
    operations that holds no snapshot, and in which every status
    event for the tracked call and every end of call carries a status
    that lies ahead of (or equals) the current one in the graph, the
    status at the end lies ahead of (or equals) the status at the
    start. *)
Theorem status_advances_on_ordered_run (acts : list Action)
    (st : CallState) (s s' : string) :
  ordered_run st acts = true →
  status_of st = Some s →
  status_of (dispatch_all st acts) = Some s' →
  spec_forward s s' = true.
Proof.
  revert st s. induction acts as [|a acts IH]; intros st s Hrun Hs Hs'.
  - simpl in Hs'. rewrite Hs in Hs'. injection Hs' as <-.
    apply spec_forward_refl.
  - simpl in Hrun.
    apply andb_prop in Hrun as [Hrun Hrest].
    apply andb_prop in Hrun as [Hsnap Hord].
    apply negb_true_iff in Hsnap.
    destruct (status_step st a s Hsnap Hord Hs) as [Hnone | (s1 & Hs1 & Hfwd)].
    + exfalso. clear IH Hord Hsnap Hs.
      assert (activeCall (reducer st a) = None) as Hgone.
      { unfold status_of in Hnone.
        by destruct (activeCall (reducer st a)). }
      simpl in Hs'. revert Hrest Hgone Hs'. generalize (reducer st a).
      induction acts as [|a' acts IH']; intros st1 Hrest Hgone Hs'.
      * unfold status_of in Hs'. simpl in Hs'. by rewrite Hgone in Hs'.
      * simpl in Hrest.
        apply andb_prop in Hrest as [Hrun' Hrest'].
        apply andb_prop in Hrun' as [Hsnap' _].
        apply negb_true_iff in Hsnap'.
        apply (IH' (reducer st1 a') Hrest').
        -- by apply no_call_without_snapshot.
        -- exact Hs'.
    + eapply spec_forward_trans; [exact Hfwd|].
      apply (IH (reducer st a) s1 Hrest Hs1). exact Hs'.
Qed.

Lemma status_advances_on_ordered_run_witness :
  ordered_run (tracking "A" "initiating")
    [ updateCallStatus "A" "ringing";
      addTranscript (a_transcript "t2" "ai" "hi there");
      updateCallStatus "B" "initiating";
      updateCallStatus "A" "in_progress";
      endCall_fulfilled "A";
      updateCallStatus "A" "completed" ] = true
  ∧ spec_forward "initiating" "completed" = true.
Proof.
  split; [reflexivity|].
  apply (status_advances_on_ordered_run
           [ updateCallStatus "A" "ringing";
             addTranscript (a_transcript "t2" "ai" "hi there");
             updateCallStatus "B" "initiating";
             updateCallStatus "A" "in_progress";
             endCall_fulfilled "A";
             updateCallStatus "A" "completed" ]
           (tracking "A" "initiating")); reflexivity.
Defined.

End Transitions.

(** * Properties of the facade *)

Section Facade.
Import CallSlice CallService Thunks UseCall Samples.

Lemma initiateCall_resolves b log data response call :
  on_initiate b log data = inr response →
  on_getCall b (log ++ [POST_initiate data]) (rs_call_id response) = inr call →
  Thunks.initiateCall data b log =
    (inr (call, rs_websocket_url response),
     log ++ [POST_initiate data; GET_call (rs_call_id response)]).
Proof.
  intros H1 H2.
  unfold Thunks.initiateCall, await, CallService.initiateCall,
    CallService.getCall, request, resolve.
  rewrite H1, H2. by rewrite <- app_assoc.
Qed.

Lemma initiateCall_rejects b log data e :
  on_initiate b log data = inl e
  ∨ (∃ response,
       on_initiate b log data = inr response
       ∧ on_getCall b (log ++ [POST_initiate data]) (rs_call_id response) = inl e) →
  ∃ log', Thunks.initiateCall data b log = (inl e, log').
Proof.
  unfold Thunks.initiateCall, await, CallService.initiateCall,
    CallService.getCall, request, resolve.
  intros [H1 | (response & H1 & H2)]; rewrite H1; [|rewrite H2]; eauto.
Qed.

(** C7. [startCall] asks the backend to initiate the call and then
    to return the call's details, in that order.  When both answer,
    the returned call becomes the active call, the transcript log is
    emptied, and the call is handed back to the caller.  When either
    request is rejected, the operation is rejected with that error:
    the caller gets no call, the error's message becomes the store's
    advisory error, and the active call and the transcript log are
    the ones stored before.  Neither [pending] nor [rejected] touches
    the active call or the log in any state. *)
Theorem startCall_all_or_nothing (data : CallInitiateRequest)
    (b : Backend) (w : World) :
  (∀ response call,
     on_initiate b (served w) data = inr response →
     on_getCall b (served w ++ [POST_initiate data]) (rs_call_id response)
       = inr call →
     startCall data b w =
       ({| store :=
             {| activeCall := Some call;
                callHistory := callHistory (store w);
                transcripts := [];
                loading := false;
                error := None;
                totalCalls := totalCalls (store w);
                currentPage := currentPage (store w) |};
           served := served w ++ [POST_initiate data;
                                  GET_call (rs_call_id response)] |},
        Some (call, rs_websocket_url response)))
  ∧ (∀ e,
       on_initiate b (served w) data = inl e
       ∨ (∃ response,
            on_initiate b (served w) data = inr response
            ∧ on_getCall b (served w ++ [POST_initiate data])
                         (rs_call_id response) = inl e) →
       snd (startCall data b w) = None
       ∧ activeCall (store (fst (startCall data b w))) = activeCall (store w)
       ∧ transcripts (store (fst (startCall data b w))) = transcripts (store w)
       ∧ error (store (fst (startCall data b w)))
         = Some (or_default (message e) "Failed to initiate call")
       ∧ loading (store (fst (startCall data b w))) = false)
  ∧ (∀ st e,
       activeCall (reducer st initiateCall_pending) = activeCall st
       ∧ transcripts (reducer st initiateCall_pending) = transcripts st
       ∧ activeCall (reducer st (initiateCall_rejected e)) = activeCall st
       ∧ transcripts (reducer st (initiateCall_rejected e)) = transcripts st).
Proof.
  split; [|split].
  - intros response call H1 H2.
    unfold startCall, dispatch_initiateCall, dispatch_thunk.
    by rewrite (initiateCall_resolves _ _ _ _ _ H1 H2).
  - intros e He.
    destruct (initiateCall_rejects _ _ _ _ He) as [log' Hrun].
    unfold startCall, dispatch_initiateCall, dispatch_thunk.
    by rewrite Hrun.
  - by intros st e.
Qed.

Lemma startCall_all_or_nothing_witness :
  (startCall a_request backend_up
             {| store := tracking "B" "completed"; served := [] |}
   = ({| store :=
           {| activeCall := Some (a_call "A" "initiating");
              callHistory := [];
              transcripts := [];
              loading := false;
              error := None;
              totalCalls := 0%Z;
              currentPage := 1%Z |};
         served := [POST_initiate a_request; GET_call "A"] |},
      Some (a_call "A" "initiating", "/ws/call/A")))
  ∧ (snd (startCall a_request backend_half
                    {| store := tracking "B" "completed"; served := [] |})
     = None
     ∧ activeCall (store (fst (startCall a_request backend_half
                    {| store := tracking "B" "completed"; served := [] |})))
       = Some (a_call "B" "completed")
     ∧ transcripts (store (fst (startCall a_request backend_half
                    {| store := tracking "B" "completed"; served := [] |})))
       = [a_transcript "t1" "user" "hello"]
     ∧ error (store (fst (startCall a_request backend_half
                    {| store := tracking "B" "completed"; served := [] |})))
       = Some "Network Error"
     ∧ loading (store (fst (startCall a_request backend_half
                    {| store := tracking "B" "completed"; served := [] |})))
       = false).
Proof.
  split.
  - apply (proj1 (startCall_all_or_nothing a_request backend_up
                    {| store := tracking "B" "completed"; served := [] |})
                 (mkCallInitiateResponse "A" "initiating" "+821012345678"
                    "2024-01-01T00:00:00Z" "/ws/call/A"));
      reflexivity.
  - apply (proj1 (proj2 (startCall_all_or_nothing a_request backend_half
                    {| store := tracking "B" "completed"; served := [] |}))
                 network_error).
    right. eexists. split; reflexivity.
Defined.

Lemma endCall_rejected_ignored (st : CallState) (e : SerializedError) :
  reducer st endCall_pending = st ∧ reducer st (endCall_rejected e) = st.
Proof. by split. Qed.

Lemma stopCall_rejected (callId : string) (b : Backend) (w : World)
    (e : SerializedError) :
  on_endCall b (served w) callId = inl e →
  store (stopCall callId b w) = store w.
Proof.
  intros He.
  unfold stopCall, dispatch_endCall, dispatch_thunk, Thunks.endCall, await,
    CallService.endCall, request.
  by rewrite He.
Qed.

(** C8.  The backend rejects the end-of-call request with the
    message [Network Error].  The call in the store stays as it was,
    and so does everything else: the advisory error is still empty
    after [stopCall], where the rejected [startCall] above stores the
    message. *)
Theorem stopCall_failure_leaves_no_error :
  on_endCall backend_down [] "A" = inl network_error
  ∧ store (stopCall "A" backend_down
                    {| store := tracking "A" "in_progress"; served := [] |})
    = tracking "A" "in_progress"
  ∧ error (store (stopCall "A" backend_down
                    {| store := tracking "A" "in_progress"; served := [] |}))
    = None
  ∧ error (store (fst (startCall a_request backend_down
                    {| store := tracking "A" "in_progress"; served := [] |})))
    = Some "Network Error".
Proof. repeat split. Qed.

(** C10.  Once the backend has confirmed the end of call [callId],
    [stopCall callId] marks whatever call the store tracks as
    completed, without comparing [callId] with the tracked call's id,
    and touches nothing else; when no call is tracked the store is
    left as it was. *)
Theorem stopCall_completes_tracked_call (callId : string)
    (b : Backend) (w : World) :
  on_endCall b (served w) callId = inr tt →
  store (stopCall callId b w) =
    match activeCall (store w) with
    | Some c =>
        {| activeCall :=
             Some {| c_id := c_id c;
                     c_phone_number := c_phone_number c;
                     c_status := "completed";
                     c_caller_id := c_caller_id c;
                     c_direction := c_direction c;
                     c_twilio_call_sid := c_twilio_call_sid c;
                     c_started_at := c_started_at c;
                     c_ended_at := c_ended_at c;
                     c_duration := c_duration c;
                     c_recording_url := c_recording_url c;
                     c_ai_persona := c_ai_persona c;
                     c_created_at := c_created_at c;
                     c_updated_at := c_updated_at c |};
           callHistory := callHistory (store w);
           transcripts := transcripts (store w);
           loading := loading (store w);
           error := error (store w);
           totalCalls := totalCalls (store w);
           currentPage := currentPage (store w) |}
    | None => store w
    end.
Proof.
  intros Hok.
  unfold stopCall, dispatch_endCall, dispatch_thunk, Thunks.endCall, await,
    CallService.endCall, request, resolve.
  rewrite Hok. simpl. by destruct (activeCall (store w)).
Qed.

Lemma stopCall_completes_tracked_call_witness :
  c_id (a_call "A" "in_progress") ≠ "B"
  ∧ store (stopCall "B" backend_up
                    {| store := tracking "A" "in_progress"; served := [] |})
    = tracking "A" "completed"
  ∧ store (stopCall "B" backend_up
                    {| store := initialState; served := [] |})
    = initialState.
Proof.
  split; [discriminate|]. split.
  - apply (stopCall_completes_tracked_call "B" backend_up
             {| store := tracking "A" "in_progress"; served := [] |}).
    reflexivity.
  - apply (stopCall_completes_tracked_call "B" backend_up
             {| store := initialState; served := [] |}).
    reflexivity.
Defined.

End Facade.

(** * Properties of the message handler *)

Section Normalizer.
Import CallPage Samples.

Variable JSON_parse : string → option json.
Variables callId randomUUID : string.

Lemma get_object members key : get (JObject members) key = inr (member key members).
Proof. reflexivity. Qed.

(** What the handler does with a parsed object, by its [type]. *)
Lemma onMessage_object members :
  onMessage callId randomUUID (JObject members) =
    inr (if is_string (member "type" members) "transcript" then
           Handled (handleNewTranscript randomUUID callId
                      (member "speaker" members) (member "text" members)
                      (member "timestamp" members) (member "timestamp" members))
         else if is_string (member "type" members) "status_update" then
           Handled (handleStatusUpdate callId (member "status" members))
         else Ignored).
Proof.
  unfold onMessage. rewrite !get_object. simpl.
  destruct (is_string (member "type" members) "transcript"); [reflexivity|].
  by destruct (is_string (member "type" members) "status_update").
Qed.

Lemma is_string_true v literal :
  is_string v literal = true ↔ v = Some (JString literal).
Proof.
  unfold is_string. destruct v as [[| | |s| |]|]; try (split; discriminate).
  rewrite String.eqb_eq. split; congruence.
Qed.

(** The outcome of a frame, case by case. *)
Lemma ws_onmessage_outcome data :
  ws_onmessage JSON_parse callId randomUUID data =
    inr match JSON_parse data with
        | None => Logged SyntaxError
        | Some JNull => Logged TypeError
        | Some (JObject members) =>
            if is_string (member "type" members) "transcript" then
              Handled (handleNewTranscript randomUUID callId
                         (member "speaker" members) (member "text" members)
                         (member "timestamp" members)
                         (member "timestamp" members))
            else if is_string (member "type" members) "status_update" then
              Handled (handleStatusUpdate callId (member "status" members))
            else Ignored
        | Some _ => Ignored
        end.
Proof.
  unfold ws_onmessage.
  destruct (JSON_parse data) as [[|b|n|s|l|members]|]; try reflexivity.
  unfold bind at 1. by rewrite onMessage_object.
Qed.

Lemma is_string_false v literal :
  v ≠ Some (JString literal) → is_string v literal = false.
Proof.
  intros Hne. destruct (is_string v literal) eqn:H; [|done].
  by apply is_string_true in H.
Qed.

(** C9.  Receiving a frame never throws, whatever the frame holds.
    A text that does not parse, [null], an array, a number or string
    or boolean, an object without a [type] and an object whose
    [type] is neither [transcript] nor [status_update] all normalise
    to nothing.  A frame leads to a call into the store only when it
    parses to an object whose [type] is the string [transcript] or
    the string [status_update], and then to the matching call. *)
Theorem receive_never_throws (data : string) :
  (∃ o, ws_onmessage JSON_parse callId randomUUID data = inr o)
  ∧ (JSON_parse data = None → ws_onmessage JSON_parse callId randomUUID data = inr (Logged SyntaxError))
  ∧ (JSON_parse data = Some JNull → ws_onmessage JSON_parse callId randomUUID data = inr (Logged TypeError))
  ∧ (∀ message,
       JSON_parse data = Some message →
       (∀ members, message ≠ JObject members) → message ≠ JNull →
       ws_onmessage JSON_parse callId randomUUID data = inr Ignored)
  ∧ (∀ members,
       JSON_parse data = Some (JObject members) →
       member "type" members ≠ Some (JString "transcript") →
       member "type" members ≠ Some (JString "status_update") →
       ws_onmessage JSON_parse callId randomUUID data = inr Ignored)
  ∧ (∀ o c,
       ws_onmessage JSON_parse callId randomUUID data = inr o → normalized o = Some c →
       ∃ members,
         JSON_parse data = Some (JObject members)
         ∧ ((member "type" members = Some (JString "transcript")
             ∧ c = handleNewTranscript randomUUID callId
                     (member "speaker" members) (member "text" members)
                     (member "timestamp" members) (member "timestamp" members))
            ∨ (member "type" members = Some (JString "status_update")
               ∧ c = handleStatusUpdate callId (member "status" members)))).
Proof.
  rewrite ws_onmessage_outcome.
  split; [eauto|].
  split; [by intros ->|].
  split; [by intros ->|].
  split.
  { intros message -> Hobj Hnull.
    destruct message as [|b|n|s|l|members]; try done.
    by destruct (Hobj members). }
  split.
  { intros members -> Ht Hs.
    by rewrite (is_string_false _ _ Ht), (is_string_false _ _ Hs). }
  intros o c Ho Hc. injection Ho as <-.
  destruct (JSON_parse data) as [[|b|n|s|l|members]|]; try discriminate Hc.
  exists members. split; [done|].
  destruct (is_string (member "type" members) "transcript") eqn:Ht.
  - apply is_string_true in Ht. injection Hc as <-. by left.
  - destruct (is_string (member "type" members) "status_update") eqn:Hs;
      [|discriminate Hc].
    apply is_string_true in Hs. injection Hc as <-. by right.
Qed.

End Normalizer.

Section Frames.
Import CallPage Samples.

Lemma receive_never_throws_witness :
  ws_onmessage parse_sample "A" "uuid-1" "not json" = inr (Logged SyntaxError)
  ∧ ws_onmessage parse_sample "A" "uuid-1" "null" = inr (Logged TypeError)
  ∧ ws_onmessage parse_sample "A" "uuid-1" "[]" = inr Ignored
  ∧ ws_onmessage parse_sample "A" "uuid-1" untyped_frame = inr Ignored
  ∧ ws_onmessage parse_sample "A" "uuid-1" ping_frame = inr Ignored.
Proof.
  split; [|split; [|split; [|split]]].
  - apply (receive_never_throws parse_sample "A" "uuid-1" "not json").
    reflexivity.
  - apply (receive_never_throws parse_sample "A" "uuid-1" "null").
    reflexivity.
  - apply (proj1 (proj2 (proj2 (proj2
             (receive_never_throws parse_sample "A" "uuid-1" "[]"))))
             (JArray [])); [reflexivity | discriminate | discriminate].
  - apply (proj1 (proj2 (proj2 (proj2 (proj2
             (receive_never_throws parse_sample "A" "uuid-1" untyped_frame)))))
             [("status", JString "ringing")]);
      [reflexivity | discriminate | discriminate].
  - apply (proj1 (proj2 (proj2 (proj2 (proj2
             (receive_never_throws parse_sample "A" "uuid-1" ping_frame)))))
             [("type", JString "ping")]);
      [reflexivity | discriminate | discriminate].
Defined.

Example status_frame_handled :
  ws_onmessage parse_sample "A" "uuid-1" status_frame
  = inr (Handled (handleStatusUpdate "A" (Some (JString "ringing")))).
Proof. reflexivity. Qed.

Example transcript_frame_handled :
  ws_onmessage parse_sample "A" "uuid-1" transcript_frame
  = inr (Handled (handleNewTranscript "uuid-1" "A"
                    (Some (JString "user")) (Some (JString "hello"))
                    (Some (JString "T1")) (Some (JString "T1")))).
Proof. reflexivity. Qed.

Example repeated_key_last_wins :
  member "type" [("type", JString "transcript"); ("type", JString "ping")]
  = Some (JString "ping").
Proof. reflexivity. Qed.

End Frames.

(** * Properties of the transport *)

Section Transport.
Import UseWebSocket.

Variable WS_BASE_URL : string.

Lemma opened_connect cid h :
  cid ≠ "" → opened (connect WS_BASE_URL (Some cid) h) = S (opened h).
Proof.
  intros Hcid. unfold connect, opened.
  apply String.eqb_neq in Hcid. rewrite Hcid. simpl.
  rewrite length_app. simpl. lia.
Qed.

Lemma opened_disconnect h : opened (disconnect h) = opened h.
Proof.
  unfold disconnect, opened.
  destruct (reconnectTimeoutRef h) as [[|t]|]; simpl;
    destruct (wsRef h); simpl; by rewrite ?length_alter.
Qed.

Lemma sockets_disconnect h i ws :
  wsRef h = Some i → sockets h !! i = Some ws →
  sockets (disconnect h) !! i = Some (WebSocket_close ws)
  ∧ nextTimeout (disconnect h) = nextTimeout h.
Proof.
  intros Href Hws. unfold disconnect.
  destruct (reconnectTimeoutRef h) as [[|t]|]; simpl; rewrite Href; simpl;
    by rewrite list_lookup_alter_eq, Hws.
Qed.

(** Closing the handle while its socket is still connecting, open or
    closing does not end the reconnection loop: the socket's [close]
    event can then be delivered, its handler schedules a timeout that
    nothing cancels, and when the timeout fires a new connection is
    opened. *)
Lemma disconnect_then_close_event_reconnects cid h i ws :
  cid ≠ "" →
  wsRef h = Some i → sockets h !! i = Some ws → readyState ws ≠ CLOSED →
  ∃ h',
    run WS_BASE_URL (Some cid) (disconnect h)
        [SocketClose i; TimeoutFired (nextTimeout h)] = Some h'
    ∧ opened h' = S (opened h).
Proof.
  intros Hcid Href Hws Hopen.
  destruct (sockets_disconnect h i ws Href Hws) as [Hlook Hnext].
  assert (readyState (WebSocket_close ws) ≠ CLOSED) as Hstill.
  { unfold WebSocket_close.
    destruct (readyState ws) eqn:Hws_state; simpl; congruence. }
  set (h1 := disconnect h) in *.
  set (h2 := ws_onclose (on_sockets (alter (set_readyState CLOSED) i) h1)).
  assert (step WS_BASE_URL (Some cid) h1 (SocketClose i) = Some h2) as Hclose.
  { unfold step. rewrite Hlook. simpl.
    by destruct (readyState (WebSocket_close ws)). }
  assert (step WS_BASE_URL (Some cid) h2 (TimeoutFired (nextTimeout h))
          = Some (connect WS_BASE_URL (Some cid)
                          (clearTimeout (nextTimeout h) h2))) as Hfire.
  { unfold step. rewrite bool_decide_eq_true_2; [done|].
    unfold h2, ws_onclose. simpl. rewrite Hnext.
    apply elem_of_app. right. by apply list_elem_of_singleton. }
  exists (connect WS_BASE_URL (Some cid) (clearTimeout (nextTimeout h) h2)).
  split.
  - cbn [run]. rewrite Hclose. cbn [mbind option_bind]. by rewrite Hfire.
  - rewrite opened_connect by done. f_equal.
    unfold opened, h2. simpl. rewrite length_alter.
    apply (opened_disconnect h).
Qed.

(** C1.  A trace the browser can produce: the hook mounts for call
    [A], the socket opens and subscribes, the caller closes the
    handle, the closed socket reports [close], and the timeout its
    handler scheduled fires.  One connection had been opened when
    the handle was closed; a second one is opened afterwards, and it
    becomes the hook's current socket. *)
Theorem reconnect_after_close :
  ∃ closed final,
    run WS_BASE_URL (Some "A") initial [Mount; SocketOpen 0; Cleanup]
      = Some closed
    ∧ opened closed = 1
    ∧ wsRef closed = None
    ∧ timeouts closed = []
    ∧ run WS_BASE_URL (Some "A") closed [SocketClose 0; TimeoutFired 1]
      = Some final
    ∧ opened final = 2
    ∧ wsRef final = Some 1
    ∧ (readyState <$> sockets final) = [CLOSED; CONNECTING].
Proof. do 2 eexists. repeat split. Qed.

(** When the socket's [close] event has already been handled, closing
    the handle cancels the timeout and nothing is left to fire. *)
Example close_event_then_disconnect :
  ∃ closed,
    run WS_BASE_URL (Some "A") initial
        [Mount; SocketOpen 0; SocketClose 0; Cleanup] = Some closed
    ∧ opened closed = 1
    ∧ timeouts closed = []
    ∧ step WS_BASE_URL (Some "A") closed (TimeoutFired 1) = None
    ∧ step WS_BASE_URL (Some "A") closed (SocketClose 0) = None.
Proof. eexists. repeat split. Qed.

(** Each connection that opens is subscribed once, with the call id. *)
Example resubscribes_on_reconnect :
  ∃ h,
    run WS_BASE_URL (Some "A") initial
        [Mount; SocketOpen 0; SocketClose 0; TimeoutFired 1; SocketOpen 1]
      = Some h
    ∧ (sent <$> sockets h) = [[subscribe "A"]; [subscribe "A"]].
Proof. eexists. repeat split. Qed.

End Transport.

(** * Scenarios *)

Section Scenarios.
Import CallSlice CallService Thunks UseCall Samples.

(** A call is started, then a status event says it is ringing: the
    status changes, the phone number and the log do not. *)
Example scenario_ringing :
  let started := fst (startCall a_request backend_up
                        {| store := initialState; served := [] |}) in
  let ringing := handleStatusUpdate "A" "ringing" started in
  (c_status <$> activeCall (store started)) = Some "initiating"
  ∧ (c_phone_number <$> activeCall (store started)) = Some "+821012345678"
  ∧ (c_status <$> activeCall (store ringing)) = Some "ringing"
  ∧ (c_phone_number <$> activeCall (store ringing)) = Some "+821012345678"
  ∧ transcripts (store ringing) = transcripts (store started).
Proof. repeat split. Qed.

(** Two transcript events are shown in the order of their arrival. *)
Example scenario_two_lines :
  let w := {| store := initialState; served := [] |} in
  transcripts (store (handleNewTranscript (a_transcript "t2" "ai" "hi there")
                        (handleNewTranscript (a_transcript "t1" "user" "hello") w)))
  = [a_transcript "t1" "user" "hello"; a_transcript "t2" "ai" "hi there"].
Proof. reflexivity. Qed.

(** The same entry delivered twice is shown twice. *)
Example scenario_duplicate_delivery :
  let w := {| store := initialState; served := [] |} in
  transcripts (store (handleNewTranscript (a_transcript "t1" "user" "hello")
                        (handleNewTranscript (a_transcript "t1" "user" "hello") w)))
  = [a_transcript "t1" "user" "hello"; a_transcript "t1" "user" "hello"].
Proof. reflexivity. Qed.

(** The call is ended while in progress; the status event that echoes
    the end changes nothing. *)
Example scenario_end_then_echo :
  let w := {| store := tracking "A" "in_progress"; served := [] |} in
  let ended := stopCall "A" backend_up w in
  store ended = tracking "A" "completed"
  ∧ store (handleStatusUpdate "A" "completed" ended) = store ended.
Proof. repeat split. Qed.

(** Leaving the call view drops the call and its log, not the history. *)
Example scenario_clear :
  let w := {| store := tracking "A" "in_progress"; served := [] |} in
  activeCall (store (clearCall w)) = None
  ∧ transcripts (store (clearCall w)) = []
  ∧ callHistory (store (clearCall w)) = callHistory (store w).
Proof. repeat split. Qed.

End Scenarios.

(** * Runs of the store *)

Section StoreRuns.
Import CallSlice History Runs Samples.

Lemma dispatch_all_cons st a acts :
  dispatch_all st (a :: acts) = dispatch_all (reducer st a) acts.
Proof. reflexivity. Qed.

(** X1.  Over any run that holds no action assigning the log as a
    whole (a fulfilled initiation or detail fetch, or a clear), the
    transcript log at the end is the log at the start followed by the
    entries of the run's [addTranscript] actions, in their order:
    status events, errors, history fetches, the end of a call and
    [setActiveCall] leave the log alone. *)
Theorem log_grows_by_appends (acts : list Action) (st : CallState) :
  forallb (λ a, negb (replaces_log a)) acts = true →
  transcripts (dispatch_all st acts) = transcripts st ++ appended acts.
Proof.
  revert st. induction acts as [|a acts IH]; intros st Hacts.
  - simpl. by rewrite app_nil_r.
  - simpl in Hacts. apply andb_prop in Hacts as [Ha Hacts].
    rewrite dispatch_all_cons, (IH _ Hacts).
    destruct a; simpl in Ha; try discriminate; simpl; try reflexivity.
    + by destruct (active_id_is st callId).
    + by rewrite <- app_assoc.
    + by destruct (activeCall st).
Qed.

Lemma log_grows_by_appends_witness :
  transcripts
    (dispatch_all (tracking "A" "ringing")
       [ updateCallStatus "A" "in_progress";
         addTranscript (a_transcript "t2" "ai" "hi there");
         setActiveCall (a_call "B" "ringing");
         fetchCallHistory_pending;
         addTranscript (a_transcript "t2" "ai" "hi there");
         endCall_fulfilled "A" ])
  = [ a_transcript "t1" "user" "hello";
      a_transcript "t2" "ai" "hi there";
      a_transcript "t2" "ai" "hi there" ].
Proof.
  apply (log_grows_by_appends
           [ updateCallStatus "A" "in_progress";
             addTranscript (a_transcript "t2" "ai" "hi there");
             setActiveCall (a_call "B" "ringing");
             fetchCallHistory_pending;
             addTranscript (a_transcript "t2" "ai" "hi there");
             endCall_fulfilled "A" ]
           (tracking "A" "ringing")).
  reflexivity.
Defined.

(** X2.  The history page (the list of past calls, the total and the
    current page) is assigned by a fulfilled history fetch and by
    nothing else: over any run without one it is the same at the end
    as at the start, whatever else the run holds, a clear of the
    active call included. *)
Theorem history_kept_without_history_fetch (acts : list Action) (st : CallState) :
  forallb (λ a, negb (writes_history a)) acts = true →
  callHistory (dispatch_all st acts) = callHistory st
  ∧ totalCalls (dispatch_all st acts) = totalCalls st
  ∧ currentPage (dispatch_all st acts) = currentPage st.
Proof.
  revert st. induction acts as [|a acts IH]; intros st Hacts; [done|].
  simpl in Hacts. apply andb_prop in Hacts as [Ha Hacts].
  rewrite dispatch_all_cons.
  destruct (IH (reducer st a) Hacts) as (-> & -> & ->).
  destruct a; simpl in Ha; try discriminate; simpl; try done.
  - by destruct (active_id_is st callId).
  - by destruct (activeCall st).
Qed.

Lemma history_kept_without_history_fetch_witness :
  callHistory
    (dispatch_all
       (reducer initialState
          (fetchCallHistory_fulfilled
             {| items := [a_call "A" "completed"]; total := 1%Z; page := 1%Z;
                page_size := 20%Z; pages := 1%Z |}))
       [ fetchCallDetails_fulfilled (a_call "A" "completed") [];
         clearActiveCall;
         fetchCallHistory_rejected network_error ])
  = [a_call "A" "completed"]
  ∧ totalCalls
      (dispatch_all
         (reducer initialState
            (fetchCallHistory_fulfilled
               {| items := [a_call "A" "completed"]; total := 1%Z; page := 1%Z;
                  page_size := 20%Z; pages := 1%Z |}))
         [ fetchCallDetails_fulfilled (a_call "A" "completed") [];
           clearActiveCall;
           fetchCallHistory_rejected network_error ])
    = 1%Z
  ∧ currentPage
      (dispatch_all
         (reducer initialState
            (fetchCallHistory_fulfilled
               {| items := [a_call "A" "completed"]; total := 1%Z; page := 1%Z;
                  page_size := 20%Z; pages := 1%Z |}))
         [ fetchCallDetails_fulfilled (a_call "A" "completed") [];
           clearActiveCall;
           fetchCallHistory_rejected network_error ])
    = 1%Z.
Proof.
  apply (history_kept_without_history_fetch
           [ fetchCallDetails_fulfilled (a_call "A" "completed") [];
             clearActiveCall;
             fetchCallHistory_rejected network_error ]
           (reducer initialState
              (fetchCallHistory_fulfilled
                 {| items := [a_call "A" "completed"]; total := 1%Z;
                    page := 1%Z; page_size := 20%Z; pages := 1%Z |}))).
  reflexivity.
Defined.

Lemma set_status_set_status c s s' :
  set_status (set_status c s) s' = set_status c s'.
Proof. reflexivity. Qed.

Lemma set_status_same c : set_status c (c_status c) = c.
Proof. by destruct c. Qed.

(** X3.  Without a snapshot, the call the store tracks keeps its
    identity: over any run that holds no snapshot, if a call is
    tracked at the start and one is tracked at the end, the two agree
    in every field except possibly the status (same id, phone number,
    persona, times, recording). *)
Theorem tracked_call_kept_without_snapshot (acts : list Action)
    (st : CallState) (c c' : Call) :
  forallb (λ a, negb (is_snapshot a)) acts = true →
  activeCall st = Some c →
  activeCall (dispatch_all st acts) = Some c' →
  c' = set_status c (c_status c').
Proof.
  revert st c. induction acts as [|a acts IH]; intros st c Hacts Hc Hc'.
  - simpl in Hc'. rewrite Hc in Hc'. injection Hc' as <-.
    by rewrite set_status_same.
  - simpl in Hacts. apply andb_prop in Hacts as [Ha Hacts].
    rewrite dispatch_all_cons in Hc'.
    assert (activeCall (reducer st a) = None
            ∨ ∃ s, activeCall (reducer st a) = Some (set_status c s)) as Hstep.
    { destruct a; simpl in Ha; try discriminate; simpl; rewrite ?Hc;
        try (right; exists (c_status c); by rewrite set_status_same);
        try (by left).
      - unfold active_id_is. rewrite Hc.
        destruct (String.eqb (c_id c) callId); simpl; rewrite ?Hc.
        + right. by exists status.
        + right. exists (c_status c). by rewrite set_status_same.
      - right. by exists "completed". }
    destruct Hstep as [Hnone | [s Hs]].
    + exfalso. clear IH Hc. revert Hacts Hnone Hc'. generalize (reducer st a).
      induction acts as [|a' acts IH']; intros st1 Hacts Hnone Hc'.
      * simpl in Hc'. congruence.
      * simpl in Hacts. apply andb_prop in Hacts as [Ha' Hacts].
        rewrite dispatch_all_cons in Hc'.
        apply (IH' (reducer st1 a') Hacts); [|done].
        apply no_call_without_snapshot; [|done].
        by apply negb_true_iff.
    + rewrite (IH _ _ Hacts Hs Hc'). by rewrite !set_status_set_status.
Qed.

Lemma tracked_call_kept_without_snapshot_witness :
  a_call "A" "completed" = set_status (a_call "A" "ringing") "completed".
Proof.
  apply (tracked_call_kept_without_snapshot
           [ updateCallStatus "A" "in_progress";
             addTranscript (a_transcript "t2" "ai" "hi there");
             updateCallStatus "B" "failed";
             endCall_fulfilled "B";
             setError "oops" ]
           (tracking "A" "ringing") (a_call "A" "ringing")
           (a_call "A" "completed")); reflexivity.
Defined.

(** X4.  How the store merges the push stream.  Over any run of
    stream events (status events and transcript events, in any
    interleaving), the store at the end is the store at the start
    with two changes and no other: the tracked call, if there is one,
    has the status of the last status event that named its id (its
    old status if none did), and the log has the run's transcript
    entries appended in order.  Events naming another call change
    nothing, and no event creates a tracked call. *)
Theorem stream_merge (acts : list Action) (st : CallState) :
  forallb is_stream_event acts = true →
  dispatch_all st acts =
    {| activeCall :=
         match activeCall st with
         | Some c =>
             Some match last_status (c_id c) acts with
                  | Some s => set_status c s
                  | None => c
                  end
         | None => None
         end;
       callHistory := callHistory st;
       transcripts := transcripts st ++ appended acts;
       loading := loading st;
       error := error st;
       totalCalls := totalCalls st;
       currentPage := currentPage st |}.
Proof.
  revert st. induction acts as [|a acts IH]; intros st Hacts.
  - simpl. rewrite app_nil_r. destruct st as [[c|] ? ? ? ? ? ?]; reflexivity.
  - simpl in Hacts. apply andb_prop in Hacts as [Ha Hacts].
    rewrite dispatch_all_cons, (IH _ Hacts). clear IH.
    destruct a; simpl in Ha; try discriminate; simpl.
    + unfold active_id_is.
      destruct (activeCall st) as [c|] eqn:Hc; simpl; [|by rewrite Hc].
      destruct (String.eqb (c_id c) callId) eqn:Hid; simpl.
      * destruct (last_status (c_id c) acts); reflexivity.
      * rewrite Hc. destruct (last_status (c_id c) acts); reflexivity.
    + rewrite <- app_assoc. simpl.
      destruct (activeCall st) as [c|]; [|reflexivity].
      by destruct (last_status (c_id c) acts).
Qed.

Lemma stream_merge_witness :
  dispatch_all (tracking "A" "initiating")
    [ updateCallStatus "A" "ringing";
      addTranscript (a_transcript "t2" "ai" "hi there");
      updateCallStatus "A" "in_progress";
      updateCallStatus "B" "failed";
      addTranscript (a_transcript "t3" "user" "bye") ]
  = {| activeCall := Some (a_call "A" "in_progress");
       callHistory := [];
       transcripts := [ a_transcript "t1" "user" "hello";
                        a_transcript "t2" "ai" "hi there";
                        a_transcript "t3" "user" "bye" ];
       loading := false;
       error := None;
       totalCalls := 0%Z;
       currentPage := 1%Z |}.
Proof.
  apply (stream_merge
           [ updateCallStatus "A" "ringing";
             addTranscript (a_transcript "t2" "ai" "hi there");
             updateCallStatus "A" "in_progress";
             updateCallStatus "B" "failed";
             addTranscript (a_transcript "t3" "user" "bye") ]
           (tracking "A" "initiating")).
  reflexivity.
Defined.

(** X5.  Once the active call has been cleared, status events and
    the outcome of an end-of-call request are ignored until a snapshot
    arrives: any run of them, for any call ids, leaves the cleared
    store exactly as it is. *)
Theorem cleared_store_ignores_call_events (acts : list Action) (st : CallState) :
  forallb needs_tracked_call acts = true →
  dispatch_all (reducer st clearActiveCall) acts = reducer st clearActiveCall.
Proof.
  generalize (eq_refl : activeCall (reducer st clearActiveCall) = None).
  generalize (reducer st clearActiveCall). clear st.
  induction acts as [|a acts IH]; intros st Hnone Hacts; [done|].
  simpl in Hacts. apply andb_prop in Hacts as [Ha Hacts].
  rewrite dispatch_all_cons.
  assert (reducer st a = st) as ->.
  { destruct a; simpl in Ha; try discriminate; simpl; try done.
    - unfold active_id_is. by rewrite Hnone.
    - by rewrite Hnone. }
  by apply IH.
Qed.

Lemma cleared_store_ignores_call_events_witness :
  dispatch_all (reducer (tracking "A" "in_progress") clearActiveCall)
    [ updateCallStatus "A" "completed";
      endCall_pending;
      endCall_fulfilled "A";
      updateCallStatus "B" "ringing";
      endCall_rejected network_error ]
  = reducer (tracking "A" "in_progress") clearActiveCall.
Proof.
  apply (cleared_store_ignores_call_events
           [ updateCallStatus "A" "completed";
             endCall_pending;
             endCall_fulfilled "A";
             updateCallStatus "B" "ringing";
             endCall_rejected network_error ]
           (tracking "A" "in_progress")).
  reflexivity.
Defined.

End StoreRuns.

(** * Loading and starting, through the facade *)

Section Loading.
Import CallSlice CallService Thunks UseCall HomePage Samples.

(** X6.  [loadCallDetails] asks for the call and then for its
    transcripts.  When both answer, the call and its transcript list
    replace the active call and the log, [loading] is cleared and the
    advisory error is left as it was.  When the call cannot be
    fetched, the transcripts are not requested.  When either request
    is rejected, nothing of the response is applied, not even a call
    that was fetched before the transcripts failed: the active call
    and the log stay, [loading] is cleared and the error's message is
    stored. *)
Theorem loadCallDetails_all_or_nothing (callId : string) (b : Backend) (w : World) :
  (∀ call r,
     on_getCall b (served w) callId = inr call →
     on_getTranscripts b (served w ++ [GET_call callId]) callId = inr r →
     loadCallDetails callId b w =
       {| store :=
            {| activeCall := Some call;
               callHistory := callHistory (store w);
               transcripts := tl_transcripts r;
               loading := false;
               error := error (store w);
               totalCalls := totalCalls (store w);
               currentPage := currentPage (store w) |};
          served := served w ++ [GET_call callId; GET_transcripts callId] |})
  ∧ (∀ e,
       on_getCall b (served w) callId = inl e →
       loadCallDetails callId b w =
         {| store :=
              {| activeCall := activeCall (store w);
                 callHistory := callHistory (store w);
                 transcripts := transcripts (store w);
                 loading := false;
                 error := Some (or_default (message e)
                                           "Failed to fetch call details");
                 totalCalls := totalCalls (store w);
                 currentPage := currentPage (store w) |};
            served := served w ++ [GET_call callId] |})
  ∧ (∀ call e,
       on_getCall b (served w) callId = inr call →
       on_getTranscripts b (served w ++ [GET_call callId]) callId = inl e →
       loadCallDetails callId b w =
         {| store :=
              {| activeCall := activeCall (store w);
                 callHistory := callHistory (store w);
                 transcripts := transcripts (store w);
                 loading := false;
                 error := Some (or_default (message e)
                                           "Failed to fetch call details");
                 totalCalls := totalCalls (store w);
                 currentPage := currentPage (store w) |};
            served := served w ++ [GET_call callId; GET_transcripts callId] |}).
Proof.
  unfold loadCallDetails, dispatch_fetchCallDetails, dispatch_thunk,
    fetchCallDetails, await, getCall, getTranscripts, request, resolve.
  split; [|split].
  - intros call r -> ->. simpl. by rewrite <- app_assoc.
  - by intros e ->.
  - intros call e -> ->. simpl. by rewrite <- app_assoc.
Qed.

Lemma loadCallDetails_all_or_nothing_witness :
  loadCallDetails "A" backend_up
    {| store := tracking "B" "completed"; served := [] |}
  = {| store :=
         {| activeCall := Some (a_call "A" "initiating");
            callHistory := [];
            transcripts := [];
            loading := false;
            error := None;
            totalCalls := 0%Z;
            currentPage := 1%Z |};
       served := [GET_call "A"; GET_transcripts "A"] |}
  ∧ loadCallDetails "A" backend_down
      {| store := tracking "B" "completed"; served := [] |}
    = {| store :=
           {| activeCall := Some (a_call "B" "completed");
              callHistory := [];
              transcripts := [a_transcript "t1" "user" "hello"];
              loading := false;
              error := Some "Network Error";
              totalCalls := 0%Z;
              currentPage := 1%Z |};
         served := [GET_call "A"] |}.
Proof.
  split.
  - apply (proj1 (loadCallDetails_all_or_nothing "A" backend_up
                    {| store := tracking "B" "completed"; served := [] |})
                 (a_call "A" "initiating")
                 {| tl_call_id := "A"; tl_transcripts := [] |});
      reflexivity.
  - apply (proj1 (proj2 (loadCallDetails_all_or_nothing "A" backend_down
                    {| store := tracking "B" "completed"; served := [] |}))
                 network_error).
    reflexivity.
Defined.

(** X7.  [loadCallHistory] sends one request, for page 1 of size 20
    unless told otherwise.  When it is answered, the list, the total
    and the current page are replaced together by those of the
    response (the page shown is the one the backend reports, not the
    one asked for); when it is rejected, the three stay as they were
    and the error's message is stored.  Either way [loading] ends
    cleared and the active call and its log are not touched. *)
Theorem loadCallHistory_replaces_page (pageNo pageSize : option number)
    (b : Backend) (w : World) :
  (∀ r,
     on_getCalls b (served w) (Some (default 1%Z pageNo))
                 (Some (default 20%Z pageSize)) = inr r →
     loadCallHistory pageNo pageSize b w =
       {| store :=
            {| activeCall := activeCall (store w);
               callHistory := items r;
               transcripts := transcripts (store w);
               loading := false;
               error := error (store w);
               totalCalls := total r;
               currentPage := page r |};
          served := served w ++ [GET_calls (Some (default 1%Z pageNo))
                                           (Some (default 20%Z pageSize))] |})
  ∧ (∀ e,
       on_getCalls b (served w) (Some (default 1%Z pageNo))
                   (Some (default 20%Z pageSize)) = inl e →
       loadCallHistory pageNo pageSize b w =
         {| store :=
              {| activeCall := activeCall (store w);
                 callHistory := callHistory (store w);
                 transcripts := transcripts (store w);
                 loading := false;
                 error := Some (or_default (message e)
                                           "Failed to fetch call history");
                 totalCalls := totalCalls (store w);
                 currentPage := currentPage (store w) |};
            served := served w ++ [GET_calls (Some (default 1%Z pageNo))
                                             (Some (default 20%Z pageSize))] |}).
Proof.
  unfold loadCallHistory, dispatch_fetchCallHistory, dispatch_thunk,
    fetchCallHistory, await, getCalls, request, resolve.
  split.
  - by intros r ->.
  - by intros e ->.
Qed.

Lemma loadCallHistory_replaces_page_witness :
  loadCallHistory None None backend_up
    {| store := tracking "A" "in_progress"; served := [] |}
  = {| store := tracking "A" "in_progress";
       served := [GET_calls (Some 1%Z) (Some 20%Z)] |}
  ∧ error (store (loadCallHistory (Some 3%Z) None backend_down
                    {| store := tracking "A" "in_progress"; served := [] |}))
    = Some "Network Error".
Proof.
  split.
  - apply (proj1 (loadCallHistory_replaces_page None None backend_up
                    {| store := tracking "A" "in_progress"; served := [] |})
                 {| items := []; total := 0%Z; page := 1%Z;
                    page_size := 20%Z; pages := 0%Z |}).
    reflexivity.
  - rewrite (proj2 (loadCallHistory_replaces_page (Some 3%Z) None backend_down
                      {| store := tracking "A" "in_progress"; served := [] |})
                   network_error); reflexivity.
Defined.

Lemma or_default_not_empty (a : option string) (b : string) :
  b ≠ "" → or_default a b ≠ "".
Proof.
  intros Hb. unfold or_default. destruct a as [s|]; [|done].
  destruct (String.eqb_spec s ""); done.
Qed.

(** X8.  Starting a call from the home page navigates exactly when
    the start succeeded, and then to the page of the call the store
    now tracks, with an empty log and no error showing.  When the
    start failed there is no navigation, the store tracks what it
    tracked before, and a non-empty error message is there to show. *)
Theorem handleInitiateCall_navigates_to_tracked_call (phoneNumber : string)
    (b : Backend) (w : World) :
  (∀ route,
     snd (handleInitiateCall phoneNumber b w) = Some route →
     ∃ call,
       route = "/call/" +:+ c_id call
       ∧ activeCall (store (fst (handleInitiateCall phoneNumber b w))) = Some call
       ∧ transcripts (store (fst (handleInitiateCall phoneNumber b w))) = []
       ∧ error (store (fst (handleInitiateCall phoneNumber b w))) = None)
  ∧ (snd (handleInitiateCall phoneNumber b w) = None →
     activeCall (store (fst (handleInitiateCall phoneNumber b w)))
       = activeCall (store w)
     ∧ transcripts (store (fst (handleInitiateCall phoneNumber b w)))
       = transcripts (store w)
     ∧ ∃ msg, error (store (fst (handleInitiateCall phoneNumber b w))) = Some msg
              ∧ msg ≠ "").
Proof.
  unfold handleInitiateCall, startCall, dispatch_initiateCall, dispatch_thunk.
  destruct (Thunks.initiateCall _ b (served w)) as [[e|[call url]] log]; simpl.
  - split; [discriminate|]. intros _. repeat split.
    eexists. split; [reflexivity|]. by apply or_default_not_empty.
  - split; [|discriminate]. intros route [= <-]. by exists call.
Qed.

Lemma handleInitiateCall_navigates_to_tracked_call_witness :
  (∃ call,
     "/call/A" = "/call/" +:+ c_id call
     ∧ activeCall (store (fst (handleInitiateCall "+821012345678" backend_up
                                 {| store := initialState; served := [] |})))
       = Some call
     ∧ transcripts (store (fst (handleInitiateCall "+821012345678" backend_up
                                  {| store := initialState; served := [] |})))
       = []
     ∧ error (store (fst (handleInitiateCall "+821012345678" backend_up
                            {| store := initialState; served := [] |})))
       = None)
  ∧ activeCall (store (fst (handleInitiateCall "+821012345678" backend_half
                              {| store := initialState; served := [] |})))
    = None.
Proof.
  split.
  - apply (proj1 (handleInitiateCall_navigates_to_tracked_call "+821012345678"
                    backend_up {| store := initialState; served := [] |})).
    reflexivity.
  - apply (proj2 (handleInitiateCall_navigates_to_tracked_call "+821012345678"
                    backend_half {| store := initialState; served := [] |})).
    reflexivity.
Defined.

End Loading.

(** * Traces of the transport *)

Section TransportTraces.
Import UseWebSocket Traces.

Variable WS_BASE_URL : string.

Lemma count_cons p e es :
  count p (e :: es) = (if p e then 1 else 0) + count p es.
Proof.
  unfold count. rewrite filter_cons.
  destruct (p e); by case_decide.
Qed.

Lemma truthy_connect cid h :
  truthy (Some cid) = true →
  opened (connect WS_BASE_URL (Some cid) h) = S (opened h).
Proof.
  intros Hcid. apply opened_connect.
  intros ->. discriminate.
Qed.

Lemma falsy_connect callId h :
  truthy callId = false → connect WS_BASE_URL callId h = h.
Proof.
  unfold truthy, connect. destruct callId as [cid|]; [|done].
  by destruct (String.eqb cid "").
Qed.

Lemma opened_sendMessage body h : opened (sendMessage body h) = opened h.
Proof.
  unfold sendMessage, opened.
  destruct (wsRef h) as [i|]; [|done].
  destruct (sockets h !! i) as [ws|]; [|done].
  destruct (readyState ws); simpl; by rewrite ?length_alter.
Qed.

Lemma opened_step callId h e h' :
  step WS_BASE_URL callId h e = Some h' →
  opened h' = opened h + (if truthy callId && connects e then 1 else 0).
Proof.
  destruct e; unfold step; cbn [connects]; intros Hstep.
  - injection Hstep as <-. rewrite andb_true_r.
    destruct callId as [cid|]; [|simpl; lia].
    destruct (String.eqb cid "") eqn:Hcid; [simpl; rewrite Hcid; simpl; lia|].
    rewrite truthy_connect by (simpl; by rewrite Hcid).
    simpl. rewrite Hcid. simpl. lia.
  - injection Hstep as <-. rewrite andb_false_r, opened_disconnect. lia.
  - rewrite andb_false_r.
    destruct (sockets h !! ws) as [s|]; [|discriminate]. simpl in Hstep.
    destruct (readyState s); try discriminate. injection Hstep as <-.
    unfold opened. simpl. rewrite !length_alter. lia.
  - rewrite andb_false_r.
    destruct (sockets h !! ws) as [s|]; [|discriminate]. simpl in Hstep.
    destruct (readyState s); try discriminate. injection Hstep as <-. lia.
  - rewrite andb_false_r.
    destruct (sockets h !! ws) as [s|]; [|discriminate]. simpl in Hstep.
    destruct (readyState s); try discriminate; injection Hstep as <-; lia.
  - rewrite andb_false_r.
    destruct (sockets h !! ws) as [s|]; [|discriminate]. simpl in Hstep.
    destruct (readyState s); try discriminate; injection Hstep as <-;
      unfold opened; simpl; rewrite length_alter; lia.
  - case_bool_decide; [|discriminate]. injection Hstep as <-.
    rewrite andb_true_r.
    destruct (truthy callId) eqn:Hcid.
    + destruct callId as [cid|]; [|discriminate].
      rewrite truthy_connect by done. unfold opened. simpl. lia.
    + rewrite falsy_connect by done. unfold opened. simpl. lia.
  - injection Hstep as <-. rewrite andb_false_r, opened_sendMessage. lia.
Qed.

(** X9.  Connections are opened by the effect of the hook and by
    fired timeouts, one each, and by nothing else: over any trace the
    browser can deliver, the number of sockets constructed grows by
    the number of [Mount] and [TimeoutFired] events in it.  For a
    missing or empty call id it does not grow at all: no socket is
    ever constructed. *)
Theorem opened_counts_connects (callId : option string)
    (es : list Event) (h h' : Hook) :
  run WS_BASE_URL callId h es = Some h' →
  opened h' = opened h + (if truthy callId then count connects es else 0).
Proof.
  revert h. induction es as [|e es IH]; intros h Hrun.
  - injection Hrun as <-. change (count connects []) with 0.
    destruct (truthy callId); lia.
  - simpl in Hrun.
    destruct (step WS_BASE_URL callId h e) as [h1|] eqn:Hstep; [|discriminate].
    simpl in Hrun. rewrite (IH _ Hrun), (opened_step _ _ _ _ Hstep), count_cons.
    destruct (truthy callId), (connects e); simpl; lia.
Qed.

Lemma timers_ok_clearTimeout t h : timers_ok h → timers_ok (clearTimeout t h).
Proof.
  intros (Hdup & Hin & Href & Hpos).
  split; [|split; [|split]]; simpl; [|  |done|done].
  - by apply NoDup_filter.
  - intros t' [_ Ht']%list_elem_of_filter. by apply Hin.
Qed.

Lemma timers_ok_connect callId h :
  timers_ok h → timers_ok (connect WS_BASE_URL callId h).
Proof.
  unfold connect. destruct callId as [cid|]; [|done].
  by destruct (String.eqb cid "").
Qed.

Lemma timers_ok_disconnect h : timers_ok h → timers_ok (disconnect h).
Proof.
  intros Hok. unfold disconnect.
  destruct (reconnectTimeoutRef h) as [[|t]|];
    [| apply (timers_ok_clearTimeout (S t)) in Hok |];
    by destruct (wsRef _).
Qed.

Lemma timers_ok_onclose f h : timers_ok h → timers_ok (ws_onclose (on_sockets f h)).
Proof.
  intros (Hdup & Hin & Href & Hpos).
  split; [|split; [|split]]; simpl.
  - apply NoDup_app. split; [done|]. split; [|apply NoDup_singleton].
    intros t Ht ->%list_elem_of_singleton. apply Hin in Ht. lia.
  - intros t [Ht | ->%list_elem_of_singleton]%elem_of_app; [|lia].
    apply Hin in Ht. lia.
  - intros t [= <-]. lia.
  - lia.
Qed.

Lemma timers_step callId h e h' :
  timers_ok h → step WS_BASE_URL callId h e = Some h' →
  timers_ok h'
  ∧ nextTimeout h' = nextTimeout h + (if closes e then 1 else 0).
Proof.
  intros Hok. destruct e; unfold step; cbn [closes]; intros Hstep.
  - injection Hstep as <-. split.
    + destruct callId as [cid|]; [|done].
      destruct (String.eqb cid ""); [done|]. by apply timers_ok_connect.
    + destruct callId as [cid|]; [|lia].
      destruct (String.eqb cid "") eqn:Hcid; [lia|].
      unfold connect. rewrite Hcid. simpl. lia.
  - injection Hstep as <-. split; [by apply timers_ok_disconnect|].
    unfold disconnect.
    destruct (reconnectTimeoutRef h) as [[|t]|]; simpl;
      destruct (wsRef h); simpl; lia.
  - destruct (sockets h !! ws) as [s|]; [|discriminate]. simpl in Hstep.
    destruct (readyState s); try discriminate. injection Hstep as <-.
    split; [exact Hok | simpl; lia].
  - destruct (sockets h !! ws) as [s|]; [|discriminate]. simpl in Hstep.
    destruct (readyState s); try discriminate. injection Hstep as <-.
    split; [done|lia].
  - destruct (sockets h !! ws) as [s|]; [|discriminate]. simpl in Hstep.
    destruct (readyState s); try discriminate; injection Hstep as <-;
      (split; [done|lia]).
  - destruct (sockets h !! ws) as [s|]; [|discriminate]. simpl in Hstep.
    destruct (readyState s); try discriminate; injection Hstep as <-;
      (split; [by apply timers_ok_onclose | simpl; lia]).
  - case_bool_decide; [|discriminate]. injection Hstep as <-. split.
    + by apply timers_ok_connect, timers_ok_clearTimeout.
    + unfold connect. destruct callId as [cid|]; [|simpl; lia].
      destruct (String.eqb cid ""); simpl; lia.
  - injection Hstep as <-. split; [|unfold sendMessage].
    + unfold sendMessage. destruct (wsRef h) as [i|]; [|done].
      destruct (sockets h !! i) as [s|]; [|done].
      by destruct (readyState s).
    + destruct (wsRef h) as [i|]; [|lia].
      destruct (sockets h !! i) as [s|]; [|lia].
      destruct (readyState s); simpl; lia.
Qed.

Lemma timers_run callId es h h' :
  timers_ok h → run WS_BASE_URL callId h es = Some h' →
  timers_ok h' ∧ nextTimeout h' = nextTimeout h + count closes es.
Proof.
  revert h. induction es as [|e es IH]; intros h Hok Hrun.
  - injection Hrun as <-. change (count closes []) with 0. split; [done|lia].
  - simpl in Hrun.
    destruct (step WS_BASE_URL callId h e) as [h1|] eqn:Hstep; [|discriminate].
    simpl in Hrun.
    destruct (timers_step _ _ _ _ Hok Hstep) as [Hok1 Hnext1].
    destruct (IH _ Hok1 Hrun) as [Hok' Hnext'].
    split; [done|]. rewrite Hnext', Hnext1, count_cons. lia.
Qed.

Lemma timers_ok_initial : timers_ok initial.
Proof.
  split; [|split; [|split]]; simpl.
  - apply NoDup_nil_2.
  - intros t Ht. by apply not_elem_of_nil in Ht.
  - done.
  - lia.
Qed.

(** X10.  Every [close] event of a socket schedules exactly one
    timeout and nothing else schedules one; there is no cap.  Over any
    trace from the initial state, the number of timeouts handed out is
    the number of [SocketClose] events, the timeouts still scheduled
    are distinct, and each of them, like the one the hook remembers,
    is a positive id that was handed out. *)
Theorem one_timeout_per_close (callId : option string) (es : list Event) (h : Hook) :
  run WS_BASE_URL callId initial es = Some h →
  nextTimeout h = 1 + count closes es
  ∧ NoDup (timeouts h)
  ∧ (∀ t, t ∈ timeouts h → 0 < t < nextTimeout h)
  ∧ (∀ t, reconnectTimeoutRef h = Some t → 0 < t < nextTimeout h).
Proof.
  intros Hrun.
  destruct (timers_run _ _ _ _ timers_ok_initial Hrun)
    as [(Hdup & Hin & Href & _) Hnext].
  done.
Qed.

(** X11.  Closing the handle cancels the timeout the hook remembers
    and no other: in every state reached from the initial one, after
    [disconnect] the remembered timeout is not scheduled, the other
    scheduled timeouts are still scheduled, and the handle has no
    current socket. *)
Theorem disconnect_cancels_remembered_timeout (callId : option string)
    (es : list Event) (h : Hook) :
  run WS_BASE_URL callId initial es = Some h →
  wsRef (disconnect h) = None
  ∧ (∀ t, reconnectTimeoutRef h = Some t → t ∉ timeouts (disconnect h))
  ∧ (∀ t, t ∈ timeouts h → reconnectTimeoutRef h ≠ Some t →
          t ∈ timeouts (disconnect h)).
Proof.
  intros Hrun.
  destruct (timers_run _ _ _ _ timers_ok_initial Hrun)
    as [(_ & _ & Href & _) _].
  unfold disconnect.
  destruct (reconnectTimeoutRef h) as [t0|] eqn:Hr.
  - destruct (Href t0 eq_refl) as [Hpos _].
    destruct t0 as [|t0]; [lia|]. simpl.
    destruct (wsRef h) eqn:Hw; simpl; (split; [done|]); split.
    all: try (intros t [= <-] [Hne _]%list_elem_of_filter; by apply Hne).
    all: intros t Ht Hne; apply list_elem_of_filter; split; [congruence|done].
  - destruct (wsRef h) eqn:Hw; simpl; (split; [done|]); split; done.
Qed.

Lemma frames_ok_close cid ws : frames_ok cid ws → frames_ok cid (WebSocket_close ws).
Proof.
  unfold frames_ok, WebSocket_close.
  destruct (readyState ws) eqn:Hr; simpl; rewrite ?Hr; eauto.
Qed.

Lemma frames_ok_closed cid ws :
  frames_ok cid ws → frames_ok cid (set_readyState CLOSED ws).
Proof.
  unfold frames_ok. destruct (readyState ws); simpl; eauto.
Qed.

Lemma url_alter (f : WebSocket → WebSocket) (u : string) i l :
  (∀ ws, url (f ws) = url ws) →
  Forall (λ ws, url ws = u) l → Forall (λ ws, url ws = u) (alter f i l).
Proof.
  intros Hf Hl. apply Forall_alter; [done|].
  intros ws _ Hu. by rewrite Hf.
Qed.

(** The sockets of the hook for call [cid] all point at that call's
    endpoint and have written what [frames_ok] allows. *)
Lemma sockets_ok_step cid h e h' :
  cid ≠ "" →
  Forall (λ ws, url ws = WS_BASE_URL +:+ "/ws/call/" +:+ cid
                ∧ frames_ok cid ws) (sockets h) →
  step WS_BASE_URL (Some cid) h e = Some h' →
  Forall (λ ws, url ws = WS_BASE_URL +:+ "/ws/call/" +:+ cid
                ∧ frames_ok cid ws) (sockets h').
Proof.
  intros Hcid%String.eqb_neq Hok.
  assert (∀ l,
            Forall (λ ws, url ws = WS_BASE_URL +:+ "/ws/call/" +:+ cid
                          ∧ frames_ok cid ws) l →
            Forall (λ ws, url ws = WS_BASE_URL +:+ "/ws/call/" +:+ cid
                          ∧ frames_ok cid ws)
                   (l ++ [{| url := WS_BASE_URL +:+ "/ws/call/" +:+ cid;
                             readyState := CONNECTING;
                             sent := [] |}])) as Hnew.
  { intros l Hl. apply Forall_app. split; [done|]. by repeat constructor. }
  destruct e; unfold step; intros Hstep.
  - injection Hstep as <-. rewrite Hcid. simpl. by apply Hnew.
  - injection Hstep as <-. unfold disconnect.
    assert (∀ h0, sockets h0 = sockets h →
              Forall (λ ws, url ws = WS_BASE_URL +:+ "/ws/call/" +:+ cid
                            ∧ frames_ok cid ws)
                     (sockets match wsRef h0 with
                              | Some i =>
                                  {| wsRef := None;
                                     reconnectTimeoutRef := reconnectTimeoutRef h0;
                                     sockets := alter WebSocket_close i (sockets h0);
                                     timeouts := timeouts h0;
                                     nextTimeout := nextTimeout h0 |}
                              | None => h0
                              end)) as Hclose.
    { intros h0 Hsame. destruct (wsRef h0) as [i|]; simpl; rewrite Hsame; [|done].
      apply Forall_alter; [done|]. intros ws _ [Hu Hf]. split.
      - rewrite <- Hu. unfold WebSocket_close. by destruct (readyState ws).
      - by apply frames_ok_close. }
    destruct (reconnectTimeoutRef h) as [[|t]|]; by apply Hclose.
  - destruct (sockets h !! ws) as [s|] eqn:Hs; [|discriminate]. simpl in Hstep.
    destruct (readyState s) eqn:Hr; try discriminate. injection Hstep as <-.
    simpl. rewrite list_alter_alter_eq.
    apply Forall_alter; [done|]. intros s' Hs' [Hu Hf].
    assert (s' = s) as -> by congruence.
    split; [done|]. unfold frames_ok in *. rewrite Hr in Hf. simpl.
    exists []. by rewrite Hf.
  - destruct (sockets h !! ws) as [s|]; [|discriminate]. simpl in Hstep.
    destruct (readyState s); try discriminate. by injection Hstep as <-.
  - destruct (sockets h !! ws) as [s|]; [|discriminate]. simpl in Hstep.
    destruct (readyState s); try discriminate; by injection Hstep as <-.
  - destruct (sockets h !! ws) as [s|]; [|discriminate]. simpl in Hstep.
    assert (Forall (λ ws, url ws = WS_BASE_URL +:+ "/ws/call/" +:+ cid
                          ∧ frames_ok cid ws)
                   (alter (set_readyState CLOSED) ws (sockets h))) as Hclosed.
    { apply Forall_alter; [done|]. intros s' _ [Hu Hf].
      split; [done|]. by apply frames_ok_closed. }
    destruct (readyState s); try discriminate; by injection Hstep as <-.
  - case_bool_decide; [|discriminate]. injection Hstep as <-.
    unfold connect. rewrite Hcid. simpl. by apply Hnew.
  - injection Hstep as <-. unfold sendMessage.
    destruct (wsRef h) as [i|]; [|done].
    destruct (sockets h !! i) as [s|] eqn:Hs; [|done].
    destruct (readyState s) eqn:Hr; try done. simpl.
    apply Forall_alter; [done|]. intros s' Hs' [Hu Hf].
    assert (s' = s) as -> by congruence.
    split; [done|]. unfold frames_ok in *. rewrite Hr in Hf. simpl. rewrite Hr.
    destruct Hf as [bodies ->]. exists (bodies ++ [body]).
    by rewrite fmap_app.
Qed.

(** X12.  Whatever the browser delivers, every connection the hook
    has opened for a call points at that call's endpoint, and what
    has been written to it is nothing while it has not opened and,
    once it has, the subscription for that call, once and first,
    followed only by the caller's own messages. *)
Theorem subscription_first_and_once (cid : string) (es : list Event) (h : Hook) :
  cid ≠ "" →
  run WS_BASE_URL (Some cid) initial es = Some h →
  Forall (λ ws, url ws = WS_BASE_URL +:+ "/ws/call/" +:+ cid
                ∧ frames_ok cid ws) (sockets h).
Proof.
  intros Hcid.
  assert (Forall (λ ws, url ws = WS_BASE_URL +:+ "/ws/call/" +:+ cid
                        ∧ frames_ok cid ws) (sockets initial)) as Hinit
    by constructor.
  revert Hinit. generalize initial. induction es as [|e es IH]; intros h0 Hok Hrun.
  - by injection Hrun as <-.
  - simpl in Hrun.
    destruct (step WS_BASE_URL (Some cid) h0 e) as [h1|] eqn:Hstep; [|discriminate].
    simpl in Hrun. apply (IH h1); [|done].
    by apply (sockets_ok_step cid h0 e).
Qed.

(** X13.  A message sent while the handle has no open current socket
    is dropped without a trace: if the current socket, when there is
    one, is not open, any number of [sendMessage] calls leave the
    hook and all its sockets as they were. *)
Theorem sendMessage_dropped_unless_open (callId : option string)
    (bodies : list string) (h : Hook) :
  (∀ i ws, wsRef h = Some i → sockets h !! i = Some ws → readyState ws ≠ OPEN) →
  run WS_BASE_URL callId h (SendMessage <$> bodies) = Some h.
Proof.
  intros Hshut. induction bodies as [|body bodies IH]; [done|].
  simpl. assert (sendMessage body h = h) as ->; [|exact IH].
  unfold sendMessage.
  destruct (wsRef h) as [i|]; [|done].
  destruct (sockets h !! i) as [ws|] eqn:Hws; [|done].
  specialize (Hshut i ws eq_refl Hws). by destruct (readyState ws).
Qed.

Lemma current_is_newest_connect callId h :
  current_is_newest h → current_is_newest (connect WS_BASE_URL callId h).
Proof.
  unfold connect. destruct callId as [cid|]; [|done].
  destruct (String.eqb cid ""); [done|]. intros _.
  unfold current_is_newest. simpl. rewrite length_app. simpl. lia.
Qed.

Lemma current_is_newest_alter (f : WebSocket → WebSocket) i h :
  current_is_newest h → current_is_newest (on_sockets (alter f i) h).
Proof.
  unfold current_is_newest. simpl. by rewrite length_alter.
Qed.

Lemma current_is_newest_step callId h e h' :
  current_is_newest h → step WS_BASE_URL callId h e = Some h' →
  current_is_newest h'.
Proof.
  intros Hok. destruct e; unfold step; intros Hstep.
  - injection Hstep as <-. destruct callId as [cid|]; [|done].
    destruct (String.eqb cid ""); [done|]. by apply current_is_newest_connect.
  - injection Hstep as <-. unfold disconnect.
    destruct (reconnectTimeoutRef h) as [[|t]|]; simpl;
      by destruct (wsRef h).
  - destruct (sockets h !! ws) as [s|]; [|discriminate]. simpl in Hstep.
    destruct (readyState s); try discriminate. injection Hstep as <-.
    by apply current_is_newest_alter, current_is_newest_alter.
  - destruct (sockets h !! ws) as [s|]; [|discriminate]. simpl in Hstep.
    destruct (readyState s); try discriminate. by injection Hstep as <-.
  - destruct (sockets h !! ws) as [s|]; [|discriminate]. simpl in Hstep.
    destruct (readyState s); try discriminate; by injection Hstep as <-.
  - destruct (sockets h !! ws) as [s|]; [|discriminate]. simpl in Hstep.
    pose proof (current_is_newest_alter (set_readyState CLOSED) ws h Hok).
    destruct (readyState s); try discriminate; by injection Hstep as <-.
  - case_bool_decide; [|discriminate]. injection Hstep as <-.
    by apply current_is_newest_connect.
  - injection Hstep as <-. unfold sendMessage.
    destruct (wsRef h) as [i|] eqn:Hi; [|done].
    destruct (sockets h !! i) as [s|]; [|done].
    destruct (readyState s); try done.
    by apply current_is_newest_alter.
Qed.

(** X17.  The handle only ever holds the connection opened last, so
    closing the handle reaches that connection and no other: in every
    state reached from the initial one the current socket, if any, is
    the newest, and [disconnect] leaves every older connection exactly
    as it was, open ones included. *)
Theorem disconnect_reaches_newest_only (callId : option string)
    (es : list Event) (h : Hook) :
  run WS_BASE_URL callId initial es = Some h →
  current_is_newest h
  ∧ (∀ j, S j < opened h → sockets (disconnect h) !! j = sockets h !! j).
Proof.
  intros Hrun.
  assert (current_is_newest h) as Hok.
  { assert (current_is_newest initial) as Hinit by done.
    revert Hinit Hrun. generalize initial.
    induction es as [|e es IH]; intros h0 Hok Hrun.
    - by injection Hrun as <-.
    - simpl in Hrun.
      destruct (step WS_BASE_URL callId h0 e) as [h1|] eqn:Hstep; [|discriminate].
      simpl in Hrun. apply (IH h1); [|done].
      by apply (current_is_newest_step callId h0 e). }
  split; [done|]. intros j Hj. unfold disconnect, current_is_newest, opened in *.
  destruct (reconnectTimeoutRef h) as [[|t]|]; simpl;
    destruct (wsRef h) as [i|]; simpl; try done;
    apply list_lookup_alter_ne; lia.
Qed.

End TransportTraces.

Section TransportWitnesses.
Import UseWebSocket Traces.

Lemma opened_counts_connects_witness :
  ∃ h,
    run "ws://localhost:8000" (Some "A") initial
        [ Mount; SocketOpen 0; SocketClose 0; TimeoutFired 1;
          SocketClose 1; TimeoutFired 2 ] = Some h
    ∧ opened h = 0 + 3.
Proof.
  eexists. split; [reflexivity|].
  apply (opened_counts_connects "ws://localhost:8000" (Some "A")
           [ Mount; SocketOpen 0; SocketClose 0; TimeoutFired 1;
             SocketClose 1; TimeoutFired 2 ] initial).
  reflexivity.
Defined.

Lemma one_timeout_per_close_witness :
  ∃ h,
    run "ws://localhost:8000" (Some "A") initial
        [ Mount; SocketOpen 0; SocketClose 0; TimeoutFired 1; SocketClose 1 ]
      = Some h
    ∧ nextTimeout h = 1 + 2
    ∧ NoDup (timeouts h).
Proof.
  eexists. split; [reflexivity|].
  split;
    apply (one_timeout_per_close "ws://localhost:8000" (Some "A")
             [ Mount; SocketOpen 0; SocketClose 0; TimeoutFired 1;
               SocketClose 1 ] _ eq_refl).
Defined.

Lemma disconnect_cancels_remembered_timeout_witness :
  ∃ h,
    run "ws://localhost:8000" (Some "A") initial
        [ Mount; SocketOpen 0; SocketClose 0 ] = Some h
    ∧ reconnectTimeoutRef h = Some 1
    ∧ 1 ∈ timeouts h
    ∧ 1 ∉ timeouts (disconnect h).
Proof.
  eexists. split; [reflexivity|].
  split; [reflexivity|]. split; [apply list_elem_of_singleton; reflexivity|].
  apply (disconnect_cancels_remembered_timeout "ws://localhost:8000" (Some "A")
           [ Mount; SocketOpen 0; SocketClose 0 ] _ eq_refl).
  reflexivity.
Defined.

Lemma subscription_first_and_once_witness :
  ∃ h,
    run "ws://localhost:8000" (Some "A") initial
        [ Mount; SocketOpen 0; SendMessage "ping"; SocketClose 0;
          TimeoutFired 1; SendMessage "lost"; SocketOpen 1 ] = Some h
    ∧ (sent <$> sockets h)
      = [ [subscribe "A"; user_message "ping"]; [subscribe "A"] ]
    ∧ Forall (λ ws, url ws = "ws://localhost:8000" +:+ "/ws/call/" +:+ "A"
                    ∧ frames_ok "A" ws) (sockets h).
Proof.
  eexists. split; [reflexivity|]. split; [reflexivity|].
  apply (subscription_first_and_once "ws://localhost:8000" "A"
           [ Mount; SocketOpen 0; SendMessage "ping"; SocketClose 0;
             TimeoutFired 1; SendMessage "lost"; SocketOpen 1 ]);
    [discriminate | reflexivity].
Defined.

Lemma sendMessage_dropped_unless_open_witness :
  run "ws://localhost:8000" (Some "A")
      (disconnect (connect "ws://localhost:8000" (Some "A") initial))
      (SendMessage <$> ["one"; "two"])
  = Some (disconnect (connect "ws://localhost:8000" (Some "A") initial)).
Proof.
  apply (sendMessage_dropped_unless_open "ws://localhost:8000" (Some "A")
           ["one"; "two"]).
  intros i ws Href. discriminate Href.
Defined.

Lemma disconnect_reaches_newest_only_witness :
  ∃ h,
    run "ws://localhost:8000" (Some "A") initial
        [ Mount; SocketOpen 0; Cleanup; Mount; SocketClose 0; SocketOpen 1;
          TimeoutFired 1 ] = Some h
    ∧ wsRef h = Some 2
    ∧ (readyState <$> sockets h) = [CLOSED; OPEN; CONNECTING]
    ∧ sockets (disconnect h) !! 1 = sockets h !! 1.
Proof.
  eexists. split; [reflexivity|]. split; [reflexivity|]. split; [reflexivity|].
  apply (disconnect_reaches_newest_only "ws://localhost:8000" (Some "A")
           [ Mount; SocketOpen 0; Cleanup; Mount; SocketClose 0; SocketOpen 1;
             TimeoutFired 1 ] _ eq_refl).
  unfold opened. simpl. lia.
Defined.

End TransportWitnesses.

(** * What the handler reads *)

Section HandlerReads.
Import CallPage.

(** X14.  The handler looks at five members of a message and at no
    other: two objects that agree on [type], [speaker], [text],
    [timestamp] and [status] are handled alike, whatever else they
    hold.  A [call_id] in the message, in particular, is not read:
    the event goes to the call of the page. *)
Theorem onMessage_reads_five_members (callId randomUUID : string)
    (m1 m2 : list (string * json)) :
  (∀ key, key ∈ ["type"; "speaker"; "text"; "timestamp"; "status"] →
          member key m1 = member key m2) →
  onMessage callId randomUUID (JObject m1)
  = onMessage callId randomUUID (JObject m2).
Proof.
  intros Hsame. rewrite !onMessage_object.
  rewrite (Hsame "type"), (Hsame "speaker"), (Hsame "text"),
    (Hsame "timestamp"), (Hsame "status");
    [reflexivity | | | | |]; set_solver.
Qed.

Lemma onMessage_reads_five_members_witness :
  onMessage "A" "uuid-1"
    (JObject [ ("type", JString "status_update");
               ("call_id", JString "B");
               ("status", JString "ringing");
               ("seq", JNumber "7") ])
  = onMessage "A" "uuid-1"
      (JObject [ ("status", JString "ringing");
                 ("type", JString "status_update") ]).
Proof.
  apply (onMessage_reads_five_members "A" "uuid-1").
  intros key Hkey.
  repeat (apply elem_of_cons in Hkey as [-> | Hkey]; [reflexivity|]).
  by apply not_elem_of_nil in Hkey.
Defined.

End HandlerReads.

(** * The phone number form *)

Section PhoneNumbers.
Import PhoneInput.

Lemma digit_range c : N.leb 48 c && N.leb c 57 = true ↔ is_digit c.
Proof.
  unfold is_digit. rewrite andb_true_iff, !N.leb_le. done.
Qed.

Lemma digits_repeat max : ∀ min s,
  existsb is_empty (repeat_from (residuals (Range 48 57)) min max s) = true
  ↔ Forall is_digit s ∧ (min ≤ length s ≤ max)%nat.
Proof.
  induction max as [|max IH]; intros min s.
  - cbn [repeat_from].
    destruct min as [|min], s as [|x rest]; simpl; split;
      try discriminate; try done;
      try (intros [_ [Hmin Hmax]]; simpl in *; lia).
  - cbn [repeat_from]. rewrite existsb_app, orb_true_iff.
    destruct s as [|x rest].
    + destruct min as [|min]; simpl; split.
      * intros _. split; [constructor | lia].
      * by left.
      * intros [|]; discriminate.
      * intros [_ [Hmin _]]. lia.
    + cbn [residuals].
      destruct (N.leb 48 x && N.leb x 57) eqn:Hx.
      * simpl. rewrite app_nil_r, IH. apply digit_range in Hx. split.
        -- intros [Hnow|[Hf [Hmin Hmax]]]; [by destruct min|].
           split; [by constructor | simpl; lia].
        -- intros [[_ Hf]%Forall_cons [Hmin Hmax]]. simpl in *. right.
           split; [done | lia].
      * simpl. split; [intros [Hnow|]; [by destruct min | discriminate]|].
        intros [[Hd _]%Forall_cons _]. apply digit_range in Hd. congruence.
Qed.

(** X15.  The numbers the form accepts are exactly these: a plus
    sign, then a digit from 1 to 9, then between one and fourteen
    further digits, and nothing before, between or after.  So an
    accepted number has 3 to 16 characters, no spaces or separators,
    and no leading zero in the country code. *)
Theorem validatePhoneNumber_accepts (number : jsstring) :
  validatePhoneNumber number = true
  ↔ ∃ d ds,
      number = 43%N :: d :: ds
      ∧ (49 ≤ d ≤ 57)%N
      ∧ Forall is_digit ds
      ∧ (1 ≤ length ds ≤ 14)%nat.
Proof.
  unfold validatePhoneNumber, test, e164Regex.
  destruct number as [|p [|d ds]].
  - split; [discriminate|]. by intros (? & ? & ? & _).
  - simpl. split.
    + destruct (N.eqb p 43); discriminate.
    + by intros (? & ? & ? & _).
  - cbn [residuals]. destruct (N.eqb_spec p 43) as [->|Hp].
    + simpl. rewrite app_nil_r.
      destruct (N.leb 49 d && N.leb d 57) eqn:Hd.
      * simpl. rewrite app_nil_r.
        change (existsb _ ?l) with (existsb is_empty l).
        rewrite (digits_repeat 14 1 ds).
        apply andb_true_iff in Hd as [Hd1%N.leb_le Hd2%N.leb_le]. split.
        -- intros [Hf Hlen]. by exists d, ds.
        -- intros (d' & ds' & [= <- <-] & _ & Hf & Hlen). done.
      * simpl. split; [discriminate|].
        intros (d' & ds' & [= <- <-] & [Hd1 Hd2] & _).
        apply N.leb_le in Hd1, Hd2. rewrite Hd1, Hd2 in Hd. discriminate.
    + simpl. split; [discriminate|].
      intros (d' & ds' & [= -> _ _] & _). done.
Qed.

Example korean_mobile_accepted :
  validatePhoneNumber (literal "+821012345678") = true
  ∧ validatePhoneNumber (literal "+82 10 1234 5678") = false
  ∧ validatePhoneNumber (literal "821012345678") = false
  ∧ validatePhoneNumber (literal "+021012345678") = false
  ∧ validatePhoneNumber (literal "+8") = false
  ∧ validatePhoneNumber (literal "+1234567890123456") = false
  ∧ validatePhoneNumber (literal "+821012345678 ") = false.
Proof. repeat split. Qed.

Lemma digit_not_space c : (43 ≤ c ≤ 57)%N → is_space c = false.
Proof.
  intros [Hlo Hhi]. unfold is_space.
  repeat match goal with
         | |- context [N.leb ?a ?b] =>
             destruct (N.leb_spec a b); try lia
         | |- context [N.eqb ?a ?b] =>
             destruct (N.eqb_spec a b); try lia
         end.
Qed.

Lemma drop_spaces_head c s : is_space c = false → drop_spaces (c :: s) = c :: s.
Proof. intros Hc. simpl. by rewrite Hc. Qed.

(** An accepted number has no white space around it. *)
Lemma trim_accepted number :
  validatePhoneNumber number = true → trim number = number.
Proof.
  intros (d & ds & -> & Hd & Hds & Hlen)%validatePhoneNumber_accepts.
  unfold trim. rewrite drop_spaces_head by (apply digit_not_space; lia).
  destruct (reverse (43%N :: d :: ds)) as [|x rest] eqn:Hrev.
  { apply (f_equal length) in Hrev. rewrite length_reverse in Hrev.
    discriminate. }
  assert (x ∈ 43%N :: d :: ds) as Hx.
  { apply elem_of_reverse. rewrite Hrev. by left. }
  rewrite drop_spaces_head, <- Hrev, reverse_involutive; [done|].
  apply digit_not_space.
  apply elem_of_cons in Hx as [->|Hx]; [lia|].
  apply elem_of_cons in Hx as [->|Hx]; [lia|].
  rewrite Forall_forall in Hds. specialize (Hds x Hx).
  unfold is_digit in Hds. lia.
Qed.

(** X16.  Submitting the form hands a number to [onSubmit] exactly
    when the number is an accepted one, and then hands over the text
    of the field as it stands and clears the error.  For any other
    text nothing is handed over and a message is shown; the text of
    the field is never changed. *)
Theorem handleSubmit_submits_accepted_numbers (st : State) :
  (validatePhoneNumber (phoneNumber st) = true →
     handleSubmit st
     = ({| phoneNumber := phoneNumber st; error := "" |}, Some (phoneNumber st)))
  ∧ (validatePhoneNumber (phoneNumber st) = false →
       snd (handleSubmit st) = None
       ∧ error (fst (handleSubmit st)) ≠ ""
       ∧ phoneNumber (fst (handleSubmit st)) = phoneNumber st).
Proof.
  unfold handleSubmit. split.
  - intros Hok. rewrite (trim_accepted _ Hok), Hok.
    apply validatePhoneNumber_accepts in Hok as (d & ds & -> & _).
    reflexivity.
  - intros Hbad. rewrite Hbad.
    destruct (is_empty (trim (phoneNumber st))); simpl; done.
Qed.

Lemma handleSubmit_submits_accepted_numbers_witness :
  handleSubmit {| phoneNumber := literal "+821012345678"; error := "old" |}
  = ({| phoneNumber := literal "+821012345678"; error := "" |},
     Some (literal "+821012345678"))
  ∧ snd (handleSubmit {| phoneNumber := literal "010-1234-5678"; error := "" |})
    = None.
Proof.
  split.
  - apply (handleSubmit_submits_accepted_numbers
             {| phoneNumber := literal "+821012345678"; error := "old" |}).
    reflexivity.
  - apply (handleSubmit_submits_accepted_numbers
             {| phoneNumber := literal "010-1234-5678"; error := "" |}).
    reflexivity.
Defined.

End PhoneNumbers.
